(** * The task runtime of [powerbase.core.task.base]

    A shallow embedding of the [Task] class: the status setter and the
    [log_*] transition methods, the inline back-end [run_as_main], the
    should-run check [__bool__], the name setter with the session
    registry, the proof-of-start loop [_lock_to_run_log], the transport
    snapshot [__getstate__] and the installation of conditions by
    [__init__] and the condition setters.

    Python objects that are mutated in place live in stores: condition
    objects in a heap indexed by locations, task objects in a store
    indexed by their identity.  Exceptions are values of [exn]; a method
    is a state transformer that returns [Ok] or [Raise]. *)

From Stdlib Require Import ZArith.
From stdpp Require Import gmap strings list fin_maps functions pretty.

Local Open Scope string_scope.
Local Open Scope Z_scope.
Local Open Scope list_scope.

(** ** Python values *)

(** Values the runtime only passes around (outputs of a body, parameter
    values, the entries of an instance dictionary). *)
Inductive pyobj :=
  | PyNone
  | PyBool (b : bool)
  | PyInt (z : Z)
  | PyStr (s : string)
  | PyObj (addr : nat).

(** A task name as the name setter receives it: a string, or the integer
    [id(self)] under instance naming.  [1] and ["1"] are different keys of
    a Python dict. *)
Inductive pyname :=
  | NStr (s : string)
  | NInt (z : Z).

#[global] Instance pyname_eq_dec : EqDecision pyname.
Proof. solve_decision. Defined.

#[global] Instance pyname_countable : Countable pyname.
Proof.
  refine (inj_countable'
    (λ n, match n with NStr s => inl s | NInt z => inr z end)
    (λ x, match x with inl s => NStr s | inr z => NInt z end) _).
  by intros [].
Defined.

(** [str(name)] *)
Definition str_of_name (n : pyname) : string :=
  match n with
  | NStr s => s
  | NInt z => pretty z
  end.

(** ** Exceptions *)

Inductive exn :=
  | KeyError (msg : string)
  | TypeError (msg : string)
  | ValueError (msg : string)
  | AttributeError (attr : string)
  | NotImplementedError (msg : string)
  | UnboundLocalError (var : string)
  | SchedulerRestart
  | TaskInactionException
  | TaskTerminationException
  | UserException (text : string)   (* any other subclass of Exception; [text] is its str() *)
  | BaseExc (text : string).        (* SystemExit and the like: not under Exception *)

#[global] Instance exn_eq_dec : EqDecision exn.
Proof. solve_decision. Defined.

(** [str(exception)] *)
Definition exn_str (e : exn) : string :=
  match e with
  | KeyError m | TypeError m | ValueError m | NotImplementedError m => m
  | AttributeError a => a
  | UnboundLocalError v => "local variable '" +:+ v +:+ "' referenced before assignment"
  | SchedulerRestart | TaskInactionException | TaskTerminationException => ""
  | UserException t | BaseExc t => t
  end.

(** Does [except Exception] catch it? *)
Definition is_Exception (e : exn) : bool :=
  match e with
  | BaseExc _ => false
  | _ => true
  end.

(** ** State and exceptions *)

Inductive result (A : Type) :=
  | Ok (a : A)
  | Raise (e : exn).
Arguments Ok {A} a.
Arguments Raise {A} e.

(** A method over a state [S]: the state survives an exception, as the
    attributes of a Python object do. *)
Definition M (S A : Type) : Type := S → result A * S.

Definition ret {S A} (a : A) : M S A := λ s, (Ok a, s).
Definition raise {S A} (e : exn) : M S A := λ s, (Raise e, s).
Definition bind {S A B} (m : M S A) (k : A → M S B) : M S B :=
  λ s, match m s with
       | (Ok a, s') => k a s'
       | (Raise e, s') => (Raise e, s')
       end.
Definition get {S} : M S S := λ s, (Ok s, s).
Definition gets {S A} (f : S → A) : M S A := λ s, (Ok (f s), s).
Definition modify {S} (f : S → S) : M S unit := λ s, (Ok tt, f s).

Declare Scope py_scope.
Delimit Scope py_scope with py.
Notation "x <- m ;; k" := (bind m (λ x, k))
  (at level 100, m at next level, right associativity) : py_scope.
Notation "m ;; k" := (bind m (λ _, k))
  (at level 100, right associativity) : py_scope.

(** [try: body  except ...: handler  else: orelse  finally: final].
    [handler e] is [None] when no [except] clause matches [e].  An
    exception raised by a handler or by the [else] suite is not looked
    up among the clauses again; [final] runs in every case and, when it
    raises, its exception replaces the pending outcome. *)
Definition try_except {S A B} (body : M S A) (handler : exn → option (M S B))
    (orelse : A → M S B) (final : M S unit) : M S B :=
  λ s,
    let '(r1, s1) := body s in
    let '(r2, s2) :=
      match r1 with
      | Ok a => orelse a s1
      | Raise e =>
          match handler e with
          | Some h => h s1
          | None => (Raise e, s1)
          end
      end in
    match final s2 with
    | (Ok _, s3) => (r2, s3)
    | (Raise e', s3) => (Raise e', s3)
    end.

(** ** Conditions

    Modelled from the spec: the condition classes of
    [powerbase.core.conditions] are not part of the sources at hand.  A
    condition is an object of a heap, a tree of [All], [Any] and [Not]
    nodes over the leaves [AlwaysTrue], [AlwaysFalse] and [DependSuccess];
    a leaf that needs "this task" has a slot for it, empty until
    [set_statement_defaults] binds it.  An [All] or [Any] node holds its
    sub-conditions in a Python list, an object of the heap of its own:
    the node refers to the list, and whatever refers to the same list
    sees what is appended to it. *)

Definition loc := nat.

Inductive cond_obj :=
  | AlwaysTrue
  | AlwaysFalse
  | DependSuccess (depend_task : string) (task : option nat)
  | Not (condition : loc)
  | All (subconditions : loc)
  | Any (subconditions : loc)
  | PyList (items : list loc).

(** What a caller may hand over as a condition: a bool, a condition
    object, or something else ([_validate_cond] rejects it). *)
Inductive cond_val :=
  | CBool (b : bool)
  | CRef (l : loc)
  | COther (o : pyobj).

(** ** Log records and observable events *)

Inductive level := DEBUG | INFO | ERROR | CRITICAL.

(** A record as it travels over the bridge queue. *)
Record LogRecord := {
  task_name : string;
  action : string;
  message : string;
  created : Z
}.

(** What leaves the task: calls to its logger (the adapter tags them with
    the task), records handed to the logger by [log_record], the three
    callbacks, and the pops of the bridge queue. *)
Inductive event :=
  | Log (task : nat) (lvl : level) (exc_info : bool) (msg : string)
        (extra : gmap string pyobj)
  | Handle (task : nat) (record : LogRecord)
  | OnSuccess (output : pyobj)
  | OnFailure (exception : exn)
  | OnFinish (status : option string)
  | QueueGet (block : bool) (timeout : Z).

(** ** Tasks *)

(** Outcome of the body together with the preparation of its arguments. *)
Inductive outcome :=
  | Returned (output : pyobj)
  | Raised (e : exn).

(** A callback is user code: it is observed through the event of its
    call, and it returns ([None]) or raises ([Some e]). *)
Definition callback (A : Type) : Type := A → option exn.

Record Task := {
  obj_id : nat;                                  (* id(self) *)
  _name : option string;                         (* None: no attribute yet *)
  _status : option string;
  _start_cond : cond_val;
  run_cond : cond_val;
  _end_cond : cond_val;
  priority : Z;
  execution : string;
  disabled : bool;
  force_run : option bool;                       (* True, False or None *)
  force_termination : bool;
  on_failure : option (callback exn);
  on_success : option (callback pyobj);
  on_finish : option (callback (option string));
  _parameters : gmap string pyobj;
  _thread_terminate : bool;                      (* is the Event set *)
  start_time : option Z;                         (* None: no attribute yet *)
  exception : option exn;
  _process : option nat;                         (* None: no attribute *)
  _thread : option nat;
  kw_args : list string;                         (* keyword arguments of execute_action *)
  execute_action : gmap string pyobj → outcome
}.

Definition with_name (v : option string) (t : Task) : Task :=
  {| obj_id := obj_id t; _name := v; _status := _status t;
     _start_cond := _start_cond t; run_cond := run_cond t; _end_cond := _end_cond t;
     priority := priority t; execution := execution t; disabled := disabled t;
     force_run := force_run t; force_termination := force_termination t;
     on_failure := on_failure t; on_success := on_success t; on_finish := on_finish t;
     _parameters := _parameters t; _thread_terminate := _thread_terminate t;
     start_time := start_time t; exception := exception t;
     _process := _process t; _thread := _thread t;
     kw_args := kw_args t; execute_action := execute_action t |}.

Definition with_status (v : option string) (t : Task) : Task :=
  {| obj_id := obj_id t; _name := _name t; _status := v;
     _start_cond := _start_cond t; run_cond := run_cond t; _end_cond := _end_cond t;
     priority := priority t; execution := execution t; disabled := disabled t;
     force_run := force_run t; force_termination := force_termination t;
     on_failure := on_failure t; on_success := on_success t; on_finish := on_finish t;
     _parameters := _parameters t; _thread_terminate := _thread_terminate t;
     start_time := start_time t; exception := exception t;
     _process := _process t; _thread := _thread t;
     kw_args := kw_args t; execute_action := execute_action t |}.

Definition with_start_cond (v : cond_val) (t : Task) : Task :=
  {| obj_id := obj_id t; _name := _name t; _status := _status t;
     _start_cond := v; run_cond := run_cond t; _end_cond := _end_cond t;
     priority := priority t; execution := execution t; disabled := disabled t;
     force_run := force_run t; force_termination := force_termination t;
     on_failure := on_failure t; on_success := on_success t; on_finish := on_finish t;
     _parameters := _parameters t; _thread_terminate := _thread_terminate t;
     start_time := start_time t; exception := exception t;
     _process := _process t; _thread := _thread t;
     kw_args := kw_args t; execute_action := execute_action t |}.

Definition with_run_cond (v : cond_val) (t : Task) : Task :=
  {| obj_id := obj_id t; _name := _name t; _status := _status t;
     _start_cond := _start_cond t; run_cond := v; _end_cond := _end_cond t;
     priority := priority t; execution := execution t; disabled := disabled t;
     force_run := force_run t; force_termination := force_termination t;
     on_failure := on_failure t; on_success := on_success t; on_finish := on_finish t;
     _parameters := _parameters t; _thread_terminate := _thread_terminate t;
     start_time := start_time t; exception := exception t;
     _process := _process t; _thread := _thread t;
     kw_args := kw_args t; execute_action := execute_action t |}.

Definition with_end_cond (v : cond_val) (t : Task) : Task :=
  {| obj_id := obj_id t; _name := _name t; _status := _status t;
     _start_cond := _start_cond t; run_cond := run_cond t; _end_cond := v;
     priority := priority t; execution := execution t; disabled := disabled t;
     force_run := force_run t; force_termination := force_termination t;
     on_failure := on_failure t; on_success := on_success t; on_finish := on_finish t;
     _parameters := _parameters t; _thread_terminate := _thread_terminate t;
     start_time := start_time t; exception := exception t;
     _process := _process t; _thread := _thread t;
     kw_args := kw_args t; execute_action := execute_action t |}.

Definition with_force_run (v : option bool) (t : Task) : Task :=
  {| obj_id := obj_id t; _name := _name t; _status := _status t;
     _start_cond := _start_cond t; run_cond := run_cond t; _end_cond := _end_cond t;
     priority := priority t; execution := execution t; disabled := disabled t;
     force_run := v; force_termination := force_termination t;
     on_failure := on_failure t; on_success := on_success t; on_finish := on_finish t;
     _parameters := _parameters t; _thread_terminate := _thread_terminate t;
     start_time := start_time t; exception := exception t;
     _process := _process t; _thread := _thread t;
     kw_args := kw_args t; execute_action := execute_action t |}.

Definition with_force_termination (v : bool) (t : Task) : Task :=
  {| obj_id := obj_id t; _name := _name t; _status := _status t;
     _start_cond := _start_cond t; run_cond := run_cond t; _end_cond := _end_cond t;
     priority := priority t; execution := execution t; disabled := disabled t;
     force_run := force_run t; force_termination := v;
     on_failure := on_failure t; on_success := on_success t; on_finish := on_finish t;
     _parameters := _parameters t; _thread_terminate := _thread_terminate t;
     start_time := start_time t; exception := exception t;
     _process := _process t; _thread := _thread t;
     kw_args := kw_args t; execute_action := execute_action t |}.

Definition with_thread_terminate (v : bool) (t : Task) : Task :=
  {| obj_id := obj_id t; _name := _name t; _status := _status t;
     _start_cond := _start_cond t; run_cond := run_cond t; _end_cond := _end_cond t;
     priority := priority t; execution := execution t; disabled := disabled t;
     force_run := force_run t; force_termination := force_termination t;
     on_failure := on_failure t; on_success := on_success t; on_finish := on_finish t;
     _parameters := _parameters t; _thread_terminate := v;
     start_time := start_time t; exception := exception t;
     _process := _process t; _thread := _thread t;
     kw_args := kw_args t; execute_action := execute_action t |}.

Definition with_start_time (v : option Z) (t : Task) : Task :=
  {| obj_id := obj_id t; _name := _name t; _status := _status t;
     _start_cond := _start_cond t; run_cond := run_cond t; _end_cond := _end_cond t;
     priority := priority t; execution := execution t; disabled := disabled t;
     force_run := force_run t; force_termination := force_termination t;
     on_failure := on_failure t; on_success := on_success t; on_finish := on_finish t;
     _parameters := _parameters t; _thread_terminate := _thread_terminate t;
     start_time := v; exception := exception t;
     _process := _process t; _thread := _thread t;
     kw_args := kw_args t; execute_action := execute_action t |}.

Definition with_exception (v : option exn) (t : Task) : Task :=
  {| obj_id := obj_id t; _name := _name t; _status := _status t;
     _start_cond := _start_cond t; run_cond := run_cond t; _end_cond := _end_cond t;
     priority := priority t; execution := execution t; disabled := disabled t;
     force_run := force_run t; force_termination := force_termination t;
     on_failure := on_failure t; on_success := on_success t; on_finish := on_finish t;
     _parameters := _parameters t; _thread_terminate := _thread_terminate t;
     start_time := start_time t; exception := v;
     _process := _process t; _thread := _thread t;
     kw_args := kw_args t; execute_action := execute_action t |}.

(** ** The session and the environment of a method call *)

Record Config := {
  task_logger_basename : string;
  use_instance_naming : bool;
  on_task_pre_exists : string;
  force_status_from_logs : bool
}.

(** The state a method of one task works on: the task itself, the
    session's registry [session.tasks] (name to task identity) and its
    configuration, the heap of condition objects, and the events emitted
    so far (oldest first). *)
Record Env := {
  self : Task;
  tasks : gmap pyname nat;
  config : Config;
  heap : gmap loc cond_obj;
  trace : list event
}.

Definition with_self (f : Task → Task) (σ : Env) : Env :=
  {| self := f (self σ); tasks := tasks σ; config := config σ;
     heap := heap σ; trace := trace σ |}.

Definition with_tasks (f : gmap pyname nat → gmap pyname nat) (σ : Env) : Env :=
  {| self := self σ; tasks := f (tasks σ); config := config σ;
     heap := heap σ; trace := trace σ |}.

Definition with_heap (f : gmap loc cond_obj → gmap loc cond_obj) (σ : Env) : Env :=
  {| self := self σ; tasks := tasks σ; config := config σ;
     heap := f (heap σ); trace := trace σ |}.

Definition emit (e : event) (σ : Env) : Env :=
  {| self := self σ; tasks := tasks σ; config := config σ;
     heap := heap σ; trace := trace σ ++ [e] |}.

(** ** The status setter and the transition methods *)

(** [self.logger.<level>(msg, extra=extra)] *)
Definition logger_call (lvl : level) (exc_info : bool) (msg : string)
    (extra : gmap string pyobj) : M Env unit :=
  λ σ, (Ok tt, emit (Log (obj_id (self σ)) lvl exc_info msg extra) σ).

(** The [name] property: [self._name]. *)
Definition name_getter : M Env string :=
  λ σ, match _name (self σ) with
       | Some n => (Ok n, σ)
       | None => (Raise (AttributeError "_name"), σ)
       end.

(** The value assigned to [status]: a bare action or a tuple. *)
Inductive status_value :=
  | Bare (action : option string)
  | Pair (action : option string) (message : string).

Definition _actions : list (option string) :=
  [Some "run"; Some "fail"; Some "success"; Some "inaction"; Some "terminate";
   None; Some "crash_release"].

Definition time_obj (t : option Z) : pyobj :=
  match t with
  | Some z => PyInt z
  | None => PyNone
  end.

(** [Task.status] (setter); [now] is what [datetime.datetime.now()]
    returns during the call. *)
Definition status_setter (now : Z) (value : status_value) : M Env unit :=
  (let '(action, message) :=
     match value with
     | Pair a m => (a, m)
     | Bare a => (a, "")
     end in
   if decide (action ∈ _actions) then
     match action with
     | Some a =>
         if decide (a = "run") then
           let extra : gmap string pyobj :=
             <["action" := PyStr "run"]> (<["start" := PyInt now]> ∅) in
           modify (with_self (with_start_time (Some now))) ;;
           logger_call INFO false message extra
         else
           t <- gets self ;;
           let start_time := start_time t in
           let runtime := (λ s, now - s) <$> start_time in
           let extra : gmap string pyobj :=
             <["action" := PyStr a]> (<["start" := time_obj start_time]>
             (<["end" := PyInt now]> (<["runtime" := time_obj runtime]> ∅))) in
           if decide (a = "fail")
           then logger_call ERROR true message extra      (* logger.exception *)
           else logger_call INFO false message extra
     | None => ret tt
     end ;;
     modify (with_self (with_status action))
   else
     raise (KeyError ("Invalid action: " +:+ default "None" action)))%py.

Definition log_running (now : Z) : M Env unit :=
  status_setter now (Bare (Some "run")).

Definition log_failure (now : Z) : M Env unit :=
  (name <- name_getter ;;
   status_setter now (Pair (Some "fail") ("Task '" +:+ name +:+ "' failed")))%py.

Definition log_success (now : Z) : M Env unit :=
  status_setter now (Bare (Some "success")).

Definition log_termination (now : Z) (reason : option string) : M Env unit :=
  (let reason :=
     match reason with
     | Some r => if decide (r = "") then "unknown reason" else r
     | None => "unknown reason"
     end in
   status_setter now (Pair (Some "terminate") reason) ;;
   modify (with_self (with_thread_terminate false)) ;;
   modify (with_self (with_force_termination false)))%py.

Definition log_inaction (now : Z) : M Env unit :=
  status_setter now (Bare (Some "inaction")).

(** [log_record]: a record of the bridge is handed to the logger and
    its action becomes the cached status. *)
Definition log_record (record : LogRecord) : M Env unit :=
  (σ <- get ;;
   modify (emit (Handle (obj_id (self σ)) record)) ;;
   modify (with_self (with_status (Some (action record)))))%py.

(** ** Callbacks *)

Definition call {A} (ev : A → event) (cb : callback A) (a : A) : M Env unit :=
  λ σ, match cb a with
       | None => (Ok tt, emit (ev a) σ)
       | Some e => (Raise e, emit (ev a) σ)
       end.

Definition process_failure (exception : exn) : M Env unit :=
  (t <- gets self ;;
   match on_failure t with
   | Some cb => call OnFailure cb exception
   | None => ret tt
   end)%py.

Definition process_success (output : pyobj) : M Env unit :=
  (t <- gets self ;;
   match on_success t with
   | Some cb => call OnSuccess cb output
   | None => ret tt
   end)%py.

Definition process_finish (status : option string) : M Env unit :=
  (t <- gets self ;;
   match on_finish t with
   | Some cb => call OnFinish cb status
   | None => ret tt
   end)%py.

(** ** The inline back-end *)

(** [filter_params]: keep the keyword arguments of [execute_action]. *)
Definition filter_params (kw : list string) (params : gmap string pyobj)
    : gmap string pyobj :=
  filter (λ kv, kv.1 ∈ kw) params.

(** The local variables of [run_as_main] that its handlers and its
    [finally] suite read.  [output] is bound by the assignment that
    follows the call of the body and by nothing else. *)
Record Frame := {
  env : Env;
  status : option string;
  output : option pyobj          (* None: not bound *)
}.

Definition in_env {A} (m : M Env A) : M Frame A :=
  λ f, let '(r, σ) := m (env f) in
       (r, {| env := σ; status := status f; output := output f |}).

Definition set_local_status (v : option string) : M Frame unit :=
  modify (λ f, {| env := env f; status := v; output := output f |}).

Definition set_local_output (v : pyobj) : M Frame unit :=
  modify (λ f, {| env := env f; status := status f; output := Some v |}).

Definition read_local_output : M Frame pyobj :=
  λ f, match output f with
       | Some v => (Ok v, f)
       | None => (Raise (UnboundLocalError "output"), f)
       end.

(** The [try] suite: the parameters are filtered and united with the
    task's own, and the body runs on them.  Materialising the parameters
    is part of [execute_action] here, an exception of either is an
    exception of the suite. *)
Definition run_body (params : gmap string pyobj) : M Frame unit :=
  (t <- gets (λ f, self (env f)) ;;
   let params := filter_params (kw_args t) params in
   let params := _parameters t ∪ params in
   match execute_action t params with
   | Returned v => set_local_output v
   | Raised e => raise e
   end)%py.

Definition run_handlers (t_end : Z) (e : exn) : option (M Frame pyobj) :=
  match e with
  | SchedulerRestart => Some
      (in_env (log_success t_end) ;;
       set_local_status (Some "succeeded") ;;
       out <- read_local_output ;;
       in_env (process_success out) ;;
       raise e)%py
  | TaskInactionException => Some
      (in_env (log_inaction t_end) ;;
       set_local_status (Some "inaction") ;;
       ret PyNone)%py
  | TaskTerminationException => Some
      (in_env (log_termination t_end None) ;;
       set_local_status (Some "termination") ;;
       ret PyNone)%py
  | _ =>
      if is_Exception e then Some
        (in_env (log_failure t_end) ;;
         set_local_status (Some "failed") ;;
         in_env (process_failure e) ;;
         in_env (modify (with_self (with_exception (Some e)))) ;;
         raise e)%py
      else None
  end.

Definition run_else (t_end : Z) : M Frame pyobj :=
  (in_env (log_success t_end) ;;
   set_local_status (Some "succeeded") ;;
   out <- read_local_output ;;
   in_env (process_success out) ;;
   ret out)%py.

Definition run_finally : M Frame unit :=
  (st <- gets status ;;
   in_env (process_finish st) ;;
   in_env (modify (with_self (with_force_run None))))%py.

(** [Task.run_as_main]; [t_run] and [t_end] are the clock readings of
    the [run] record and of the terminal record. *)
Definition run_as_main (t_run t_end : Z) (params : option (gmap string pyobj))
    (_log_running : bool) : M Env pyobj :=
  λ σ,
    let m :=
      ((if _log_running then in_env (log_running t_run) else ret tt) ;;
       set_local_status None ;;
       let params := default ∅ params in
       try_except (run_body params) (run_handlers t_end)
                  (λ _, run_else t_end) run_finally)%py in
    let '(r, f) := m {| env := σ; status := None; output := None |} in
    (r, env f).

(** ** Evaluation of conditions and the should-run check *)

(** [all(...)] and [any(...)] over the sub-conditions, left to right
    and short-circuiting. *)
Fixpoint all_of (f : loc → option bool) (cs : list loc) : option bool :=
  match cs with
  | [] => Some true
  | c :: cs' =>
      match f c with
      | Some true => all_of f cs'
      | Some false => Some false
      | None => None
      end
  end.

Fixpoint any_of (f : loc → option bool) (cs : list loc) : option bool :=
  match cs with
  | [] => Some false
  | c :: cs' =>
      match f c with
      | Some true => Some true
      | Some false => any_of f cs'
      | None => None
      end
  end.

(** The items of the list object at [r], as a node reads its
    [subconditions]. *)
Definition items_of (h : gmap loc cond_obj) (r : loc) : option (list loc) :=
  match h !! r with
  | Some (PyList cs) => Some cs
  | _ => None
  end.

(** Modelled from the spec: [bool(cond)] of a condition object.
    [depend_success] stands for the reading of the log that a
    [DependSuccess] leaf makes.  The walk is bounded by [fuel]; [None]
    means that the bound was reached, or that a reference leads nowhere
    or to an object of the wrong kind. *)
Fixpoint cond_bool (depend_success : string → option nat → bool) (fuel : nat)
    (h : gmap loc cond_obj) (l : loc) : option bool :=
  match fuel with
  | O => None
  | S n =>
      match h !! l with
      | None => None
      | Some AlwaysTrue => Some true
      | Some AlwaysFalse => Some false
      | Some (DependSuccess d t) => Some (depend_success d t)
      | Some (Not c) => negb <$> cond_bool depend_success n h c
      | Some (All r) => items_of h r ≫= all_of (cond_bool depend_success n h)
      | Some (Any r) => items_of h r ≫= any_of (cond_bool depend_success n h)
      | Some (PyList _) => None
      end
  end.

(** [bool(c)] for what a condition attribute holds. *)
Definition cond_val_bool (depend_success : string → option nat → bool) (fuel : nat)
    (h : gmap loc cond_obj) (c : cond_val) : option bool :=
  match c with
  | CBool b => Some b
  | CRef l => cond_bool depend_success fuel h l
  | COther _ => None
  end.

(** Truth value of [self.force_run]: [True], [False] or [None]. *)
Definition truthy (b : option bool) : bool := default false b.

(** [Task.__bool__] *)
Definition __bool__ (depend_success : string → option nat → bool) (fuel : nat)
    (σ : Env) : option bool :=
  if truthy (force_run (self σ)) then Some true
  else if disabled (self σ) then Some false
  else cond_val_bool depend_success fuel (heap σ) (_start_cond (self σ)).

(** ** Methods whose model is bounded by fuel *)

Definition MF (S A : Type) : Type := S → option (result A * S).

Definition liftF {S A} (m : M S A) : MF S A := λ s, Some (m s).
Definition bindF {S A B} (m : MF S A) (k : A → MF S B) : MF S B :=
  λ s, match m s with
       | Some (Ok a, s') => k a s'
       | Some (Raise e, s') => Some (Raise e, s')
       | None => None
       end.

Declare Scope pyf_scope.
Delimit Scope pyf_scope with pyf.
Notation "x <- m ;; k" := (bindF m (λ x, k))
  (at level 100, m at next level, right associativity) : pyf_scope.
Notation "m ;; k" := (bindF m (λ _, k))
  (at level 100, right associativity) : pyf_scope.

(** ** Installing conditions *)

(** Modelled from the spec: [set_statement_defaults(tree, task=T)] walks
    the tree and binds every leaf whose task slot is empty to [T]. *)
Fixpoint bind_defaults (fuel : nat) (task : nat) (l : loc)
    (h : gmap loc cond_obj) : option (gmap loc cond_obj) :=
  match fuel with
  | O => None
  | S n =>
      match h !! l with
      | None => None
      | Some (DependSuccess d None) => Some (<[l := DependSuccess d (Some task)]> h)
      | Some (Not c) => bind_defaults n task c h
      | Some (All r) | Some (Any r) =>
          items_of h r ≫= λ cs,
            foldl (λ acc c, acc ≫= bind_defaults n task c) (Some h) cs
      | Some _ => Some h
      end
  end.

Definition set_statement_defaults (fuel : nat) (cond : cond_val) : MF Env unit :=
  λ σ, match cond with
       | CRef l =>
           match bind_defaults fuel (obj_id (self σ)) l (heap σ) with
           | Some h' => Some (Ok tt, with_heap (λ _, h') σ)
           | None => None
           end
       | _ => Some (Ok tt, σ)
       end.

Definition _validate_cond (cond : cond_val) : M Env unit :=
  match cond with
  | COther _ => raise (TypeError "Condition must be bool or inherited from BaseCondition")
  | _ => ret tt
  end.

(** [parse_condition(cond) if isinstance(cond, str) else cond].  The
    parser is outside the sources at hand: [parse_condition] stands for
    it, a computation on the session that yields a condition or raises. *)
Definition parsed (parse_condition : string → M Env cond_val) (cond : cond_val)
    : M Env cond_val :=
  match cond with
  | COther (PyStr s) => parse_condition s
  | _ => ret cond
  end.

(** [Task.start_cond] (setter): a string goes through the parser; the
    object validated is the object stored. *)
Definition start_cond_setter (parse_condition : string → M Env cond_val)
    (fuel : nat) (cond : cond_val) : MF Env unit :=
  (cond <- liftF (parsed parse_condition cond) ;;
   liftF (_validate_cond cond) ;;
   set_statement_defaults fuel cond ;;
   liftF (modify (with_self (with_start_cond cond))))%pyf.

(** [Task.end_cond] (setter) *)
Definition end_cond_setter (parse_condition : string → M Env cond_val)
    (fuel : nat) (cond : cond_val) : MF Env unit :=
  (cond <- liftF (parsed parse_condition cond) ;;
   liftF (_validate_cond cond) ;;
   set_statement_defaults fuel cond ;;
   liftF (modify (with_self (with_end_cond cond))))%pyf.

(** [copy.copy]: a bool is its own copy; of an object, a new object with
    the same attribute values, so that what the attributes refer to (a
    sub-condition, the list of sub-conditions) is shared between the
    original and the copy. *)
Definition copy (c : cond_val) : M Env cond_val :=
  λ σ, match c with
       | CRef l =>
           match heap σ !! l with
           | Some o =>
               let l' := fresh (dom (heap σ)) in
               (Ok (CRef l'), with_heap (insert l' o) σ)
           | None => (Ok c, σ)
           end
       | _ => (Ok c, σ)
       end.

(** A new object of the condition heap, as [AlwaysFalse()] makes one. *)
Definition new_cond (o : cond_obj) : M Env cond_val :=
  λ σ, let l' := fresh (dom (heap σ)) in
       (Ok (CRef l'), with_heap (insert l' o) σ).

(** ** The name setter and the session registry *)

(** [for i in count(): new_name = name + str(i); if new_name not in
    self.session.tasks: ...]: the first free suffixed name, looked for
    from suffix [i] on, in at most [fuel] rounds. *)
Fixpoint find_new_name (fuel i : nat) (name : string)
    (registry : gmap pyname nat) : option string :=
  match fuel with
  | O => None
  | S n =>
      let new_name := name +:+ pretty i in
      match registry !! NStr new_name with
      | None => Some new_name
      | Some _ => find_new_name n (S i) name registry
      end
  end.

(** The end of the setter: [self._name = str(name)], then
    [del self.session.tasks[old_name]] when there was an old name. *)
Definition name_commit (name : pyname) (old_name : option string) : M Env unit :=
  (modify (with_self (with_name (Some (str_of_name name)))) ;;
   match old_name with
   | Some old =>
       σ <- get ;;
       match tasks σ !! NStr old with
       | Some _ => modify (with_tasks (delete (NStr old)))
       | None => raise (KeyError old)
       end
   | None => ret tt
   end)%py.

(** [Task.name] (setter).  [get_default_name] is the default name of the
    subclass ([None]: the base class, which raises).  [depth] bounds the
    nesting of the setter in itself (the rename policy assigns the new
    name through the setter), [fuel] the search for a free name. *)
Fixpoint name_setter (depth fuel : nat) (get_default_name : option string)
    (name : option pyname) : MF Env unit :=
  match depth with
  | O => λ _, None
  | S d => λ σ,
      let old_name := _name (self σ) in
      let me := obj_id (self σ) in
      let resolved : result pyname :=
        match name with
        | Some n => Ok n
        | None =>
            if use_instance_naming (config σ) then Ok (NInt (Z.of_nat me))
            else match get_default_name with
                 | Some s => Ok (NStr s)
                 | None => Raise (NotImplementedError "Method 'get_default_name' not implemented")
                 end
        end in
      match resolved with
      | Raise e => Some (Raise e, σ)
      | Ok name =>
          if decide (Some name = NStr <$> old_name) then Some (Ok tt, σ)
          else
            match tasks σ !! name with
            | Some _ =>
                let on_exists := on_task_pre_exists (config σ) in
                if decide (on_exists = "replace") then
                  Some (name_commit name old_name (with_tasks (insert name me) σ))
                else if decide (on_exists = "raise") then
                  Some (Raise (KeyError ("Task " +:+ str_of_name name +:+ " already exists.")), σ)
                else if decide (on_exists = "ignore") then
                  Some (name_commit name old_name σ)
                else if decide (on_exists = "rename") then
                  match name with
                  | NInt _ =>
                      Some (Raise (TypeError "unsupported operand type(s) for +: 'int' and 'str'"), σ)
                  | NStr s =>
                      match find_new_name fuel 0 s (tasks σ) with
                      | Some new_name =>
                          name_setter d fuel get_default_name (Some (NStr new_name)) σ
                      | None => None
                      end
                  end
                else Some (name_commit name old_name σ)
            | None =>
                Some (name_commit name old_name (with_tasks (insert name me) σ))
            end
      end
  end.

(** ** The constructor *)

Record InitArgs := {
  arg_name : option pyname;
  arg_start_cond : option cond_val;
  arg_run_cond : option cond_val;
  arg_end_cond : option cond_val;
  arg_priority : Z;
  arg_execution : string;
  arg_disabled : bool;
  arg_force_run : option bool;
  arg_on_success : option (callback pyobj);
  arg_on_failure : option (callback exn);
  arg_on_finish : option (callback (option string));
  arg_parameters : option (gmap string pyobj)
}.

(** The object [__init__] receives: no attribute is set yet. *)
Definition new_task (id : nat) (kw : list string)
    (body : gmap string pyobj → outcome) : Task :=
  {| obj_id := id; _name := None; _status := None;
     _start_cond := CBool false; run_cond := CBool false; _end_cond := CBool false;
     priority := 0; execution := ""; disabled := false;
     force_run := None; force_termination := false;
     on_failure := None; on_success := None; on_finish := None;
     _parameters := ∅; _thread_terminate := false;
     start_time := None; exception := None;
     _process := None; _thread := None;
     kw_args := kw; execute_action := body |}.

(** The plain attribute assignments of [__init__]. *)
Definition with_plain (a : InitArgs) (t : Task) : Task :=
  {| obj_id := obj_id t; _name := _name t; _status := _status t;
     _start_cond := _start_cond t; run_cond := run_cond t; _end_cond := _end_cond t;
     priority := arg_priority a; execution := arg_execution a;
     disabled := arg_disabled a;
     force_run := arg_force_run a; force_termination := false;
     on_failure := arg_on_failure a; on_success := arg_on_success a;
     on_finish := arg_on_finish a;
     _parameters := default ∅ (arg_parameters a); _thread_terminate := false;
     start_time := start_time t; exception := exception t;
     _process := _process t; _thread := _thread t;
     kw_args := kw_args t; execute_action := execute_action t |}.

(** [Task.__init__] with [dependent] and [timeout] left at [None] and the
    default logger: the name, the status, the three conditions (copied
    unless absent), the plain attributes, and [_set_default_task]. *)
Definition __init__ (parse_condition : string → M Env cond_val) (fuel : nat)
    (get_default_name : option string) (a : InitArgs) : MF Env unit :=
  (name_setter 2 fuel get_default_name (arg_name a) ;;
   liftF (status_setter 0 (Bare None)) ;;
   c <- liftF (match arg_start_cond a with
               | None => new_cond AlwaysFalse
               | Some c => copy c
               end) ;;
   start_cond_setter parse_condition fuel c ;;
   c <- liftF (match arg_run_cond a with
               | None => new_cond AlwaysTrue
               | Some c => copy c
               end) ;;
   liftF (modify (with_self (with_run_cond c))) ;;
   c <- liftF (match arg_end_cond a with
               | None => new_cond AlwaysFalse
               | Some c => copy c
               end) ;;
   end_cond_setter parse_condition fuel c ;;
   liftF (modify (with_self (with_plain a))) ;;
   t <- liftF (gets self) ;;
   set_statement_defaults fuel (_start_cond t) ;;
   set_statement_defaults fuel (run_cond t) ;;
   set_statement_defaults fuel (_end_cond t))%pyf.

(** ** Proof of start over the bridge queue *)

(** The scheduler's side: every task object by identity, and the rest
    of the session. *)
Record World := {
  objs : nat → Task;
  w_tasks : gmap pyname nat;
  w_config : Config;
  w_heap : gmap loc cond_obj;
  w_trace : list event
}.

(** A method call on the task object [i]. *)
Definition focus {A} (i : nat) (m : M Env A) : M World A :=
  λ w,
    let '(r, σ) := m {| self := objs w i; tasks := w_tasks w; config := w_config w;
                        heap := w_heap w; trace := w_trace w |} in
    (r, {| objs := <[i := self σ]> (objs w); w_tasks := tasks σ;
           w_config := config σ; w_heap := heap σ; w_trace := trace σ |}).

Definition w_emit (e : event) : M World unit :=
  modify (λ w, {| objs := objs w; w_tasks := w_tasks w; w_config := w_config w;
                  w_heap := w_heap w; w_trace := w_trace w ++ [e] |}).

(** Modelled from the spec: [session.get_task(name)] looks the named
    task up in the session registry. *)
Definition get_task (name : string) : M World nat :=
  λ w, match w_tasks w !! NStr name with
       | Some i => (Ok i, w)
       | None => (Raise (KeyError name), w)
       end.

(** What one [log_queue.get(block=True, timeout=timeout)] gives: a
    record, or [queue.Empty] after the timeout; in that case the pop
    carries what [is_alive()] of the task's thread and process handles
    would answer at that moment. *)
Inductive pop :=
  | Popped (record : LogRecord)
  | QEmpty (thread_alive process_alive : bool).

Definition is_alive_as_thread (thread_alive : bool) (t : Task) : bool :=
  match _thread t with
  | Some _ => thread_alive
  | None => false
  end.

Definition is_alive_as_process (process_alive : bool) (t : Task) : bool :=
  match _process t with
  | Some _ => process_alive
  | None => false
  end.

Definition is_alive (thread_alive process_alive : bool) (t : Task) : bool :=
  is_alive_as_thread thread_alive t || is_alive_as_process process_alive t.

(** How a run of the loop over a finite script of pops ends: the method
    returned, or the script is used up and the loop is still waiting. *)
Inductive progress := Finished | StillWaiting.

Definition setup_timeout : Z := 10.

(** [Task._lock_to_run_log] *)
Fixpoint _lock_to_run_log (this : nat) (pops : list pop) : M World progress :=
  match pops with
  | [] => ret StillWaiting
  | p :: rest =>
      (w_emit (QueueGet true setup_timeout) ;;
       match p with
       | QEmpty ta pa =>
           alive <- gets (λ w, is_alive ta pa (objs w this)) ;;
           if negb alive then
             focus this
               (name <- name_getter ;;
                logger_call CRITICAL false ("Task '" +:+ name +:+ "' crashed in setup")
                            {[ "action" := PyStr "fail" ]}) ;;
             ret Finished
           else _lock_to_run_log this rest
       | Popped record =>
           focus this
             (logger_call DEBUG false
                ("Inserting record for '" +:+ task_name record +:+ "' ("
                   +:+ action record +:+ ")") ∅) ;;
           task <- get_task (task_name record) ;;
           focus task (log_record record) ;;
           if decide (action record = "run") then ret Finished
           else _lock_to_run_log this rest
       end)%py
  end.

(** ** The transport snapshot *)

(** [Task.__getstate__] on the instance dictionary [self.__dict__]. *)
Definition __getstate__ (__dict__ : gmap string pyobj) : gmap string pyobj :=
  let state := __dict__ in
  let state := <["_logger" := PyNone]> state in
  let state := <["_start_cond" := PyNone]> state in
  let state := <["_end_cond" := PyNone]> state in
  let state := <["_process" := PyNone]> state in
  let state := <["_thread" := PyNone]> state in
  let state := <["_thread_terminate" := PyNone]> state in
  let state := <["_lock" := PyNone]> state in
  state.

(** ** The status getter *)

(** [Task.status] (getter).  [get_latest] is the outcome of the call
    [self.logger.get_latest()] into the logger's handlers: the latest
    record of the task, if any, or an exception. *)
Definition status_getter (get_latest : result (option LogRecord))
    : M Env (option string) :=
  λ σ,
    if force_status_from_logs (config σ) then
      match get_latest with
      | Ok (Some record) => (Ok (Some (action record)), σ)
      | Ok None => (Ok None, σ)
      | Raise (AttributeError _) => (Ok None, σ)     (* a warning, and no record *)
      | Raise e => (Raise e, σ)
      end
    else (Ok (_status (self σ)), σ).

(** [Task.is_running] *)
Definition is_running (get_latest : result (option LogRecord)) : M Env bool :=
  (s <- status_getter get_latest ;;
   ret (bool_decide (s = Some "run")))%py.

(** ** Dispatch *)

Definition with_process (v : option nat) (t : Task) : Task :=
  {| obj_id := obj_id t; _name := _name t; _status := _status t;
     _start_cond := _start_cond t; run_cond := run_cond t; _end_cond := _end_cond t;
     priority := priority t; execution := execution t; disabled := disabled t;
     force_run := force_run t; force_termination := force_termination t;
     on_failure := on_failure t; on_success := on_success t; on_finish := on_finish t;
     _parameters := _parameters t; _thread_terminate := _thread_terminate t;
     start_time := start_time t; exception := exception t;
     _process := v; _thread := _thread t;
     kw_args := kw_args t; execute_action := execute_action t |}.

Definition with_thread (v : option nat) (t : Task) : Task :=
  {| obj_id := obj_id t; _name := _name t; _status := _status t;
     _start_cond := _start_cond t; run_cond := run_cond t; _end_cond := _end_cond t;
     priority := priority t; execution := execution t; disabled := disabled t;
     force_run := force_run t; force_termination := force_termination t;
     on_failure := on_failure t; on_success := on_success t; on_finish := on_finish t;
     _parameters := _parameters t; _thread_terminate := _thread_terminate t;
     start_time := start_time t; exception := exception t;
     _process := _process t; _thread := v;
     kw_args := kw_args t; execute_action := execute_action t |}.

(** [Task.__call__].  The process and the thread back-end spawn a
    worker; they are parameters here.  The pause on Windows after an
    inline run changes nothing that is modelled. *)
Definition __call__ (t_run t_end : Z) (params : option (gmap string pyobj))
    (_log_running : bool) (run_as_process run_as_thread : M Env unit) : M Env unit :=
  (modify (with_self (with_process None)) ;;
   modify (with_self (with_thread None)) ;;
   t <- gets self ;;
   if decide (execution t = "main") then
     run_as_main t_run t_end params _log_running ;;
     ret tt
   else if decide (execution t = "process") then run_as_process
   else if decide (execution t = "thread") then run_as_thread
   else raise (ValueError ("Invalid execution: " +:+ execution t)))%py.

(** ** The worker side of the process back-end *)

(** [Task._run_as_process], after the handler of the process logger is
    in place: the logger named [basename + "._process"] goes through the
    check of the logger setter ([logger.name.startswith(basename)]), the
    task runs inline, an exception under [Exception] is dropped, and the
    name and the output are put on the return queue when there is one.
    The result lists what was put. *)
Definition _run_as_process (t_run t_end : Z) (params : option (gmap string pyobj))
    (return_queue : bool) : M Env (list (string * pyobj)) :=
  (cfg <- gets config ;;
   let basename := task_logger_basename cfg in
   let logger_name := basename +:+ "._process" in
   (if String.prefix basename logger_name then ret tt
    else
      name <- name_getter ;;
      logger_call CRITICAL true
        ("Task '" +:+ name +:+ "' crashed in setting up logger.")
        (<["action" := PyStr "fail"]> (<["task_name" := PyStr name]> ∅)) ;;
      raise (ValueError ("Logger name must start with '" +:+ basename +:+ "'"))) ;;
   λ σ,
     match run_as_main t_run t_end params true σ with
     | (Ok out, σ') =>
         if return_queue
         then (name <- name_getter ;; ret [(name, out)]) σ'
         else (Ok [], σ')
     | (Raise e, σ') =>
         if is_Exception e then (Ok [], σ') else (Raise e, σ')
     end)%py.

(** ** Vocabulary of the statements *)

Definition action_of (v : status_value) : option string :=
  match v with
  | Bare a => a
  | Pair a _ => a
  end.

Definition message_of (v : status_value) : string :=
  match v with
  | Bare _ => ""
  | Pair _ m => m
  end.

(** The [extra] of a [run] record and of any other record. *)
Definition run_extra (now : Z) : gmap string pyobj :=
  <["action" := PyStr "run"]> (<["start" := PyInt now]> ∅).

Definition end_extra (a : string) (st : option Z) (now : Z) : gmap string pyobj :=
  <["action" := PyStr a]> (<["start" := time_obj st]>
    (<["end" := PyInt now]> (<["runtime" := time_obj ((λ s, now - s) <$> st)]> ∅))).

(** The record the status setter emits for an action other than [run]. *)
Definition end_record (id : nat) (a msg : string) (st : option Z) (now : Z) : event :=
  if decide (a = "fail")
  then Log id ERROR true msg (end_extra a st now)
  else Log id INFO false msg (end_extra a st now).

(** The action strings the status setter is said to accept, next to unset. *)
Definition known_actions : list string :=
  ["run"; "success"; "fail"; "terminate"; "inaction"; "crash_release"].

(** The fields the transport snapshot is said to blank. *)
Definition excluded_fields : list string :=
  ["_logger"; "_start_cond"; "_end_cond"; "_process"; "_thread";
   "_thread_terminate"; "_lock"].

(** The environment after [log_running], and after the status setter
    took an action [a] other than [run] with message [msg]. *)
Definition ran (now : Z) (σ : Env) : Env :=
  with_self (with_status (Some "run"))
    (emit (Log (obj_id (self σ)) INFO false "" (run_extra now))
       (with_self (with_start_time (Some now)) σ)).

Definition ended (a msg : string) (now : Z) (σ : Env) : Env :=
  with_self (with_status (Some a))
    (emit (end_record (obj_id (self σ)) a msg (start_time (self σ)) now) σ).

Definition started (_log_running : bool) (t_run : Z) (σ : Env) : Env :=
  if _log_running then ran t_run σ else σ.

(** The arguments the body is called on. *)
Definition prepared (params : option (gmap string pyobj)) (t : Task)
    : gmap string pyobj :=
  _parameters t ∪ filter_params (kw_args t) (default ∅ params).

(** A call of an optional callback with pending result [r]. *)
Definition called {A} (ev : A → event) (cb : option (callback A)) (a : A)
    (r : result pyobj) (σ : Env) : result pyobj * Env :=
  match cb with
  | Some f =>
      match f a with
      | None => (r, emit (ev a) σ)
      | Some e => (Raise e, emit (ev a) σ)
      end
  | None => (r, σ)
  end.

(** The [finally] suite with pending result [r] and local [status = st]. *)
Definition finish (st : option string) (r : result pyobj) (σ : Env)
    : result pyobj * Env :=
  match on_finish (self σ) with
  | Some cb =>
      match cb st with
      | None => (r, with_self (with_force_run None) (emit (OnFinish st) σ))
      | Some e => (Raise e, emit (OnFinish st) σ)
      end
  | None => (r, with_self (with_force_run None) σ)
  end.

Definition is_sentinel (e : exn) : bool :=
  match e with
  | SchedulerRestart | TaskInactionException | TaskTerminationException => true
  | _ => false
  end.

(** The status string of each terminal path of [run_as_main]. *)
Definition terminal_status (o : outcome) : option string :=
  match o with
  | Returned _ => Some "succeeded"
  | Raised SchedulerRestart => Some "succeeded"
  | Raised TaskInactionException => Some "inaction"
  | Raised TaskTerminationException => Some "termination"
  | Raised e => if is_Exception e then Some "failed" else None
  end.

Definition is_finish (e : event) : bool :=
  match e with
  | OnFinish _ => true
  | _ => false
  end.

Definition is_success_call (e : event) : bool :=
  match e with
  | OnSuccess _ => true
  | _ => false
  end.

(** The registry and the task after the task took the name [final]:
    the task is named [final], the registry maps [final] to the task, the
    old name is gone, and the other entries are what they were. *)
Definition renamed_to (σ σ' : Env) (final : string) : Prop :=
  _name (self σ') = Some final ∧
  tasks σ' !! NStr final = Some (obj_id (self σ)) ∧
  (∀ old, _name (self σ) = Some old → tasks σ' !! NStr old = None) ∧
  (∀ k, k ≠ NStr final → NStr <$> _name (self σ) ≠ Some k →
        tasks σ' !! k = tasks σ !! k).

(** Every task object carries its own identity. *)
Definition store_ok (w : World) : Prop := ∀ i, obj_id (objs w i) = i.

(** A pop after which the loop of [_lock_to_run_log] goes round again:
    a record of a registered task whose action is not [run], or a
    timeout while the worker is alive. *)
Definition quiet (reg : gmap pyname nat) (t : Task) (p : pop) : Prop :=
  match p with
  | Popped r => action r ≠ "run" ∧ is_Some (reg !! NStr (task_name r))
  | QEmpty ta pa => is_alive ta pa t = true
  end.

(** The events of one round of the loop of task [this]: the pop and,
    for a record, the debug line and the replay into the named task. *)
Definition pop_events (reg : gmap pyname nat) (this : nat) (p : pop) : list event :=
  match p with
  | Popped r =>
      [QueueGet true 10;
       Log this DEBUG false
         ("Inserting record for '" +:+ task_name r +:+ "' (" +:+ action r +:+ ")") ∅]
      ++ match reg !! NStr (task_name r) with
         | Some i => [Handle i r]
         | None => []
         end
  | QEmpty _ _ => [QueueGet true 10]
  end.

(** The task object [i] after the records among [ps] that name it were
    replayed into it, in order. *)
Definition task_after (reg : gmap pyname nat) (ps : list pop) (i : nat) (t : Task) : Task :=
  fold_left
    (λ t p, match p with
            | Popped r =>
                if decide (reg !! NStr (task_name r) = Some i)
                then with_status (Some (action r)) t else t
            | QEmpty _ _ => t
            end) ps t.

(** The world [w'] is the world [w] after the rounds for [ps]. *)
Definition replayed (this : nat) (ps : list pop) (w w' : World) : Prop :=
  w_tasks w' = w_tasks w ∧ w_config w' = w_config w ∧ w_heap w' = w_heap w ∧
  w_trace w' = w_trace w ++ flat_map (pop_events (w_tasks w) this) ps ∧
  ∀ i, objs w' i = task_after (w_tasks w) ps i (objs w i).

(** The objects a condition object refers to. *)
Definition children (o : cond_obj) : list loc :=
  match o with
  | Not c => [c]
  | All r | Any r => [r]
  | PyList cs => cs
  | _ => []
  end.

(** [reach h x y]: [y] is below [x] in the heap [h]. *)
Inductive reach (h : gmap loc cond_obj) : loc → loc → Prop :=
  | reach_child x o c :
      h !! x = Some o → c ∈ children o → reach h x c
  | reach_step x o c y :
      h !! x = Some o → c ∈ children o → reach h c y → reach h x y.

(** No object of the heap refers to a location without an object. *)
Definition heap_closed (h : gmap loc cond_obj) : Prop :=
  ∀ x o c, h !! x = Some o → c ∈ children o → is_Some (h !! c).

(** Every object of [h] is still there in [h'] and refers to the same
    objects. *)
Definition grows (h h' : gmap loc cond_obj) : Prop :=
  ∀ x o, h !! x = Some o → ∃ o', h' !! x = Some o' ∧ children o' = children o.

(** What makes up a task apart from its runtime state: the fields that
    no transition writes. *)
Definition same_setup (t t' : Task) : Prop :=
  obj_id t' = obj_id t ∧ _name t' = _name t ∧
  _start_cond t' = _start_cond t ∧ run_cond t' = run_cond t ∧
  _end_cond t' = _end_cond t ∧ priority t' = priority t ∧
  execution t' = execution t ∧ disabled t' = disabled t ∧
  on_failure t' = on_failure t ∧ on_success t' = on_success t ∧
  on_finish t' = on_finish t ∧ _parameters t' = _parameters t ∧
  _process t' = _process t ∧ _thread t' = _thread t ∧
  kw_args t' = kw_args t ∧ execute_action t' = execute_action t.

(** [o'] is the object [o], except that an empty task slot may have
    been filled. *)
Definition slot_filled (o o' : cond_obj) : Prop :=
  o' = o ∨ ∃ d t, o = DependSuccess d None ∧ o' = DependSuccess d (Some t).

(** Every object of [h] is in [h'] what it was, up to a task slot that
    has been filled. *)
Definition binds (h h' : gmap loc cond_obj) : Prop :=
  ∀ x o, h !! x = Some o → ∃ o', h' !! x = Some o' ∧ slot_filled o o'.

(** [tall h n l]: at [l] there is a condition tree of height at most
    [n], every node of which is in the heap and of the kind its parent
    expects. *)
Fixpoint tall (h : gmap loc cond_obj) (n : nat) (l : loc) : bool :=
  match n with
  | O => false
  | S m =>
      match h !! l with
      | None | Some (PyList _) => false
      | Some (Not c) => tall h m c
      | Some (All r) | Some (Any r) =>
          match items_of h r with
          | Some cs => forallb (tall h m) cs
          | None => false
          end
      | Some _ => true
      end
  end.

(** A bool, or a condition tree of height at most [n]. *)
Definition cond_ok (h : gmap loc cond_obj) (n : nat) (c : cond_val) : bool :=
  match c with
  | CBool _ => true
  | CRef l => tall h n l
  | COther _ => false
  end.

(** Each of the three conditions passed to the constructor is left out,
    a bool, or a condition tree of height at most [n]. *)
Definition args_ok (h : gmap loc cond_obj) (n : nat) (a : InitArgs) : bool :=
  forallb (from_option (cond_ok h n) true)
    [arg_start_cond a; arg_run_cond a; arg_end_cond a].

(** The environment [σ1] differs from [σ] at most in the runtime state
    of the task other than [force_run], and in events that are not
    calls of [on_finish]. *)
Definition before_finish (σ σ1 : Env) : Prop :=
  tasks σ1 = tasks σ ∧ config σ1 = config σ ∧ heap σ1 = heap σ ∧
  same_setup (self σ) (self σ1) ∧
  force_run (self σ1) = force_run (self σ) ∧
  ∃ evs, trace σ1 = trace σ ++ evs ∧ List.filter is_finish evs = [].

(** ** Sample tasks and sessions for the closed instances *)

Definition bare_task (id : nat) (name : string) (body : gmap string pyobj → outcome) : Task :=
  with_name (Some name) (new_task id [] body).

Definition default_config : Config :=
  {| task_logger_basename := "powerbase.task"; use_instance_naming := false;
     on_task_pre_exists := "raise"; force_status_from_logs := false |}.

Definition lone_env (t : Task) (name : string) : Env :=
  {| self := t; tasks := {[ NStr name := obj_id t ]}; config := default_config;
     heap := ∅; trace := [] |}.

(** A task with the three callbacks set, each returning normally, and
    [force_run] on. *)
Definition watched_task (id : nat) (name : string)
    (body : gmap string pyobj → outcome) : Task :=
  with_plain
    {| arg_name := Some (NStr name); arg_start_cond := None; arg_run_cond := None;
       arg_end_cond := None; arg_priority := 1; arg_execution := "main";
       arg_disabled := false; arg_force_run := Some true;
       arg_on_success := Some (λ _, None); arg_on_failure := Some (λ _, None);
       arg_on_finish := Some (λ _, None); arg_parameters := None |}
    (bare_task id name body).

(** A session with the tasks "t" and "t0", seen from a task that has no
    name yet. *)
Definition two_task_env (policy : string) : Env :=
  {| self := new_task 9 [] (λ _, Returned PyNone);
     tasks := <[NStr "t" := 7%nat]> (<[NStr "t0" := 8%nat]> ∅);
     config := {| task_logger_basename := "powerbase.task";
                  use_instance_naming := false;
                  on_task_pre_exists := policy;
                  force_status_from_logs := false |};
     heap := ∅; trace := [] |}.

(** A scheduler with the process task "t" (object 7, worker attached)
    and a second task "u" (object 8). *)
Definition process_task : Task :=
  {| obj_id := 7; _name := Some "t"; _status := None;
     _start_cond := CBool false; run_cond := CBool true; _end_cond := CBool false;
     priority := 1; execution := "process"; disabled := false;
     force_run := Some false; force_termination := false;
     on_failure := None; on_success := None; on_finish := None;
     _parameters := ∅; _thread_terminate := false;
     start_time := None; exception := None;
     _process := Some 1%nat; _thread := None;
     kw_args := []; execute_action := λ _, Returned PyNone |}.

Definition two_task_world : World :=
  {| objs := λ i, if decide (i = 7%nat) then process_task
                  else with_name (Some "u") (new_task i [] (λ _, Returned PyNone));
     w_tasks := <[NStr "t" := 7%nat]> (<[NStr "u" := 8%nat]> ∅);
     w_config := default_config; w_heap := ∅; w_trace := [] |}.

Definition run_record_of_t : LogRecord :=
  {| task_name := "t"; action := "run"; message := ""; created := 2 |}.

(** A heap with the tree [All(AlwaysTrue)] at 2 (its list of
    sub-conditions at 1), the tree [Not(All(AlwaysTrue))] at 4 and a lone
    [AlwaysFalse] at 3, seen from the task "t". *)
Definition cond_env : Env :=
  {| self := watched_task 7 "t" (λ _, Returned PyNone);
     tasks := {[ NStr "t" := 7%nat ]}; config := default_config;
     heap := <[0%nat := AlwaysTrue]> (<[1%nat := PyList [0%nat]]>
             (<[2%nat := All 1%nat]> (<[3%nat := AlwaysFalse]>
             (<[4%nat := Not 2%nat]> ∅))));
     trace := [] |}.

(** The arguments of a constructor call that passes the tree at [l] as
    [start_cond], and a session in which the name "n" is free. *)
Definition init_args (l : loc) : InitArgs :=
  {| arg_name := Some (NStr "n"); arg_start_cond := Some (CRef l);
     arg_run_cond := None; arg_end_cond := None; arg_priority := 1;
     arg_execution := "main"; arg_disabled := false; arg_force_run := Some false;
     arg_on_success := None; arg_on_failure := None; arg_on_finish := None;
     arg_parameters := None |}.

Definition init_env : Env :=
  {| self := new_task 9 [] (λ _, Returned PyNone);
     tasks := {[ NStr "t" := 7%nat ]}; config := default_config;
     heap := heap cond_env; trace := [] |}.

(** A parser that knows no condition string. *)
Definition no_parser (s : string) : M Env cond_val :=
  raise (ValueError ("Cannot parse: " +:+ s)).

(** The arguments of a constructor call that passes no condition. *)
Definition plain_args (disabled : bool) (force_run : option bool) : InitArgs :=
  {| arg_name := Some (NStr "n"); arg_start_cond := None;
     arg_run_cond := None; arg_end_cond := None; arg_priority := 1;
     arg_execution := "main"; arg_disabled := disabled; arg_force_run := force_run;
     arg_on_success := None; arg_on_failure := None; arg_on_finish := None;
     arg_parameters := None |}.

(** A task whose [on_finish] raises. *)
Definition failing_finish_task : Task :=
  with_plain
    {| arg_name := Some (NStr "t"); arg_start_cond := None; arg_run_cond := None;
       arg_end_cond := None; arg_priority := 1; arg_execution := "main";
       arg_disabled := false; arg_force_run := Some true;
       arg_on_success := None; arg_on_failure := None;
       arg_on_finish := Some (λ _, Some (UserException "finish"));
       arg_parameters := None |}
    (bare_task 7 "t" (λ _, Returned (PyInt 3))).

(** A task whose [on_success] and [on_failure] raise. *)
Definition failing_callbacks_task (body : gmap string pyobj → outcome) : Task :=
  with_plain
    {| arg_name := Some (NStr "t"); arg_start_cond := None; arg_run_cond := None;
       arg_end_cond := None; arg_priority := 1; arg_execution := "main";
       arg_disabled := false; arg_force_run := Some true;
       arg_on_success := Some (λ _, Some (UserException "callback"));
       arg_on_failure := Some (λ _, Some (UserException "callback"));
       arg_on_finish := Some (λ _, None);
       arg_parameters := None |}
    (bare_task 7 "t" body).

(** A session under instance naming, seen from a task without a name. *)
Definition instance_naming_env : Env :=
  {| self := new_task 9 [] (λ _, Returned PyNone);
     tasks := <[NStr "t" := 7%nat]> ∅;
     config := {| task_logger_basename := "powerbase.task";
                  use_instance_naming := true;
                  on_task_pre_exists := "raise";
                  force_status_from_logs := false |};
     heap := ∅; trace := [] |}.

(** * Properties *)

(** ** The status setter *)

Lemma elem_of_actions (a : string) : Some a ∈ _actions ↔ a ∈ known_actions.
Proof.
  unfold _actions, known_actions.
  rewrite !elem_of_cons, !elem_of_nil. split.
  - intros H. repeat (destruct H as [H|H]; [simplify_eq; tauto|]). done.
  - intros H. repeat (destruct H as [H|H]; [subst; tauto|]). done.
Qed.

Lemma status_setter_invalid now v σ :
  action_of v ∉ _actions →
  status_setter now v σ =
    (Raise (KeyError ("Invalid action: " +:+ default "None" (action_of v))), σ).
Proof.
  intros Hn. unfold status_setter.
  destruct v as [a|a m]; simpl in *; destruct (decide (a ∈ _actions)); done.
Qed.

Lemma status_setter_run now v σ :
  action_of v = Some "run" →
  status_setter now v σ =
    (Ok tt, with_self (with_status (Some "run"))
              (emit (Log (obj_id (self σ)) INFO false (message_of v) (run_extra now))
                 (with_self (with_start_time (Some now)) σ))).
Proof.
  intros Ha. unfold status_setter.
  destruct v as [a|a m]; simpl in *; subst a.
  all: rewrite decide_True by (apply elem_of_actions; vm_compute; set_solver).
  all: reflexivity.
Qed.

Lemma status_setter_end now v a σ :
  action_of v = Some a → a ≠ "run" → Some a ∈ _actions →
  status_setter now v σ =
    (Ok tt, with_self (with_status (Some a))
              (emit (end_record (obj_id (self σ)) a (message_of v)
                       (start_time (self σ)) now) σ)).
Proof.
  intros Ha Hr Hin. unfold status_setter, end_record.
  destruct v as [a'|a' m]; simpl in *; subst a'.
  all: rewrite decide_True by done.
  all: rewrite decide_False by done.
  all: unfold bind, gets, modify, logger_call; simpl.
  all: destruct (decide (a = "fail")); reflexivity.
Qed.

Lemma status_setter_unset now v σ :
  action_of v = None →
  status_setter now v σ = (Ok tt, with_self (with_status None) σ).
Proof.
  intros Ha. unfold status_setter.
  destruct v as [a|a m]; simpl in *; subst a.
  all: rewrite decide_True by (vm_compute; set_solver).
  all: reflexivity.
Qed.

(** C7.  Assigning an action string outside run, success, fail,
    terminate, inaction and crash_release to [status], bare or in a
    pair, raises [KeyError]; the task (with its cached [_status]) and the
    emitted records are what they were. *)
Theorem status_setter_rejects_unknown_action (now : Z) (v : status_value)
    (a : string) (σ : Env) :
  action_of v = Some a →
  a ∉ known_actions →
  ∃ msg,
    status_setter now v σ = (Raise (KeyError msg), σ) ∧
    _status (self (status_setter now v σ).2) = _status (self σ) ∧
    trace (status_setter now v σ).2 = trace σ.
Proof.
  intros Ha Hn.
  assert (action_of v ∉ _actions) as Hout.
  { rewrite Ha. by rewrite elem_of_actions. }
  eexists. rewrite (status_setter_invalid now v σ Hout). simpl. done.
Qed.

Lemma status_setter_rejects_unknown_action_witness :
  ∃ msg,
    let σ := lone_env (bare_task 7 "t" (λ _, Returned PyNone)) "t" in
    status_setter 3 (Pair (Some "finished") "done") σ = (Raise (KeyError msg), σ) ∧
    _status (self (status_setter 3 (Pair (Some "finished") "done") σ).2) = _status (self σ) ∧
    trace (status_setter 3 (Pair (Some "finished") "done") σ).2 = trace σ.
Proof.
  apply (status_setter_rejects_unknown_action 3 (Pair (Some "finished") "done")
           "finished").
  - reflexivity.
  - apply (bool_decide_unpack _). vm_compute. exact I.
Defined.

Lemma status_setter_valid now v a σ :
  action_of v = Some a → a ∈ known_actions →
  ∃ lvl exc extra,
    status_setter now v σ =
      (Ok tt, with_self (with_status (Some a))
                (emit (Log (obj_id (self σ)) lvl exc (message_of v) extra)
                   (if decide (a = "run")
                    then with_self (with_start_time (Some now)) σ else σ))) ∧
    extra !! "action" = Some (PyStr a).
Proof.
  intros Ha Hin. destruct (decide (a = "run")) as [->|Hr].
  - exists INFO, false, (run_extra now).
    split; [by apply status_setter_run|done].
  - rewrite (status_setter_end now v a σ Ha Hr) by by apply elem_of_actions.
    unfold end_record. destruct (decide (a = "fail")).
    + exists ERROR, true, (end_extra a (start_time (self σ)) now).
      split; [done|]. unfold end_extra. by rewrite lookup_insert_eq.
    + exists INFO, false, (end_extra a (start_time (self σ)) now).
      split; [done|]. unfold end_extra. by rewrite lookup_insert_eq.
Qed.

(** C10.  The status setter takes a bare action or a pair of an action
    and a message.  In both cases the cached [_status] becomes the action
    alone; the one record emitted carries the message of the pair (the
    empty string for a bare action).  [log_failure] and
    [log_termination] assign pairs. *)
Theorem status_setter_splits_action_and_message (now : Z) (a m : string) (σ : Env) :
  a ∈ known_actions →
  (∃ lvl exc extra,
     (status_setter now (Pair (Some a) m) σ).1 = Ok tt ∧
     _status (self (status_setter now (Pair (Some a) m) σ).2) = Some a ∧
     trace (status_setter now (Pair (Some a) m) σ).2
       = trace σ ++ [Log (obj_id (self σ)) lvl exc m extra] ∧
     extra !! "action" = Some (PyStr a)) ∧
  (∃ lvl exc extra,
     (status_setter now (Bare (Some a)) σ).1 = Ok tt ∧
     _status (self (status_setter now (Bare (Some a)) σ).2) = Some a ∧
     trace (status_setter now (Bare (Some a)) σ).2
       = trace σ ++ [Log (obj_id (self σ)) lvl exc "" extra] ∧
     extra !! "action" = Some (PyStr a)) ∧
  (∀ n, _name (self σ) = Some n →
     log_failure now σ
       = status_setter now (Pair (Some "fail") ("Task '" +:+ n +:+ "' failed")) σ) ∧
  (∀ reason,
     _status (self (log_termination now reason σ).2) = Some "terminate" ∧
     trace (log_termination now reason σ).2
       = trace (status_setter now
                  (Pair (Some "terminate")
                     (match reason with
                      | Some r => if decide (r = "") then "unknown reason" else r
                      | None => "unknown reason"
                      end)) σ).2).
Proof.
  intros Hin. split; [|split; [|split]].
  - destruct (status_setter_valid now (Pair (Some a) m) a σ eq_refl Hin)
      as (lvl & exc & extra & -> & Hx).
    exists lvl, exc, extra. simpl. by destruct (decide (a = "run")).
  - destruct (status_setter_valid now (Bare (Some a)) a σ eq_refl Hin)
      as (lvl & exc & extra & -> & Hx).
    exists lvl, exc, extra. simpl. by destruct (decide (a = "run")).
  - intros n Hn. unfold log_failure, bind, name_getter. by rewrite Hn.
  - intros reason. unfold log_termination, bind.
    rewrite (status_setter_end now (Pair (Some "terminate") _) "terminate" σ eq_refl)
      by (done || (apply elem_of_actions; apply (bool_decide_unpack _);
                   vm_compute; exact I)).
    split; reflexivity.
Qed.

Lemma status_setter_splits_action_and_message_witness :
  ∃ lvl exc extra,
    let σ := lone_env (bare_task 7 "t" (λ _, Returned PyNone)) "t" in
    (status_setter 3 (Pair (Some "fail") "Task 't' failed") σ).1 = Ok tt ∧
    _status (self (status_setter 3 (Pair (Some "fail") "Task 't' failed") σ).2)
      = Some "fail" ∧
    trace (status_setter 3 (Pair (Some "fail") "Task 't' failed") σ).2
      = trace σ ++ [Log (obj_id (self σ)) lvl exc "Task 't' failed" extra] ∧
    extra !! "action" = Some (PyStr "fail").
Proof.
  refine (proj1 (status_setter_splits_action_and_message 3 "fail" "Task 't' failed"
                   (lone_env (bare_task 7 "t" (λ _, Returned PyNone)) "t") _)).
  apply (bool_decide_unpack _). vm_compute. exact I.
Defined.

(** ** The should-run check *)

(** C4.  [__bool__] is true when [force_run] is true; otherwise it is
    false when [disabled] is true; otherwise it is the truth value of
    [start_cond].  In particular a forced task runs although disabled. *)
Theorem bool_force_run_disabled_start_cond
    (depend_success : string → option nat → bool) (fuel : nat) (σ : Env) :
  (force_run (self σ) = Some true →
     __bool__ depend_success fuel σ = Some true) ∧
  (force_run (self σ) ≠ Some true → disabled (self σ) = true →
     __bool__ depend_success fuel σ = Some false) ∧
  (force_run (self σ) ≠ Some true → disabled (self σ) = false →
     __bool__ depend_success fuel σ
       = cond_val_bool depend_success fuel (heap σ) (_start_cond (self σ))) ∧
  (force_run (self σ) = Some true → disabled (self σ) = true →
     __bool__ depend_success fuel σ = Some true).
Proof.
  unfold __bool__, truthy.
  destruct (force_run (self σ)) as [[]|]; destruct (disabled (self σ)); simpl;
    repeat split; intros; congruence.
Qed.

(** ** The transport snapshot *)

(** C9.  In the snapshot of [__getstate__] the logger, the start and end
    conditions, the process and thread handles, the terminate flag and
    the mutex are [None]; every other entry of the instance dictionary
    is the entry of the snapshot. *)
Theorem getstate_blanks_exactly_the_excluded_fields
    (__dict__ : gmap string pyobj) (k : string) :
  (k ∈ excluded_fields → __getstate__ __dict__ !! k = Some PyNone) ∧
  (k ∉ excluded_fields → __getstate__ __dict__ !! k = __dict__ !! k) ∧
  Forall (λ f, __getstate__ __dict__ !! f = __dict__ !! f)
    ["_parameters"; "on_success"; "on_failure"; "on_finish"; "_name"; "execution"].
Proof.
  unfold __getstate__, excluded_fields. split; [|split].
  - rewrite !elem_of_cons, elem_of_nil.
    intros H. repeat (destruct H as [->|H]; [by simplify_map_eq|]). done.
  - rewrite !not_elem_of_cons. intros H.
    repeat (destruct H as [? H]). by simplify_map_eq.
  - repeat (constructor; [by simplify_map_eq|]). constructor.
Qed.

(** ** The inline back-end *)

Ltac run_main :=
  repeat (progress (unfold bind, in_env, try_except, run_body, run_handlers,
    run_else, run_finally, gets, get, ret, raise, set_local_status,
    set_local_output, read_local_output, modify, process_finish,
    process_success, process_failure, call, name_getter; simpl)).

Lemma log_failure_eq now σ n :
  _name (self σ) = Some n →
  log_failure now σ = (Ok tt, ended "fail" ("Task '" +:+ n +:+ "' failed") now σ).
Proof.
  intros Hn. unfold log_failure, bind, name_getter. rewrite Hn.
  rewrite (status_setter_end now (Pair (Some "fail") _) "fail" σ eq_refl)
    by (done || (apply elem_of_actions; apply (bool_decide_unpack _);
                 vm_compute; exact I)).
  reflexivity.
Qed.

(** The body raises [SchedulerRestart]: the handler logs success, and its
    reading of the unbound local [output] raises before [on_success] is
    reached and before the bare [raise]. *)
Lemma run_as_main_restart t_run t_end params lr σ :
  execute_action (self σ) (prepared params (self σ)) = Raised SchedulerRestart →
  run_as_main t_run t_end params lr σ =
    finish (Some "succeeded") (Raise (UnboundLocalError "output"))
      (ended "success" "" t_end (started lr t_run σ)).
Proof.
  intros Hb.
  unfold run_as_main, started, prepared, finish, ended, ran, end_record in *.
  destruct lr; run_main; rewrite Hb; run_main.
  all: destruct (on_finish (self σ)) as [cb|]; run_main;
    [destruct (cb (Some "succeeded"))|]; reflexivity.
Qed.

Lemma run_as_main_returned t_run t_end params lr σ v :
  execute_action (self σ) (prepared params (self σ)) = Returned v →
  run_as_main t_run t_end params lr σ =
    let '(r, σ2) := called OnSuccess (on_success (self σ)) v (Ok v)
                      (ended "success" "" t_end (started lr t_run σ)) in
    finish (Some "succeeded") r σ2.
Proof.
  intros Hb.
  unfold run_as_main, started, prepared, finish, called, ended, ran, end_record in *.
  destruct lr; run_main; rewrite Hb; run_main.
  all: destruct (on_success (self σ)) as [cs|]; run_main;
    [destruct (cs v); run_main|].
  all: destruct (on_finish (self σ)) as [cb|]; run_main;
    [destruct (cb (Some "succeeded"))|]; reflexivity.
Qed.

Lemma run_as_main_inaction t_run t_end params lr σ :
  execute_action (self σ) (prepared params (self σ)) = Raised TaskInactionException →
  run_as_main t_run t_end params lr σ =
    finish (Some "inaction") (Ok PyNone)
      (ended "inaction" "" t_end (started lr t_run σ)).
Proof.
  intros Hb.
  unfold run_as_main, started, prepared, finish, ended, ran, end_record in *.
  destruct lr; run_main; rewrite Hb; run_main.
  all: destruct (on_finish (self σ)) as [cb|]; run_main;
    [destruct (cb (Some "inaction"))|]; reflexivity.
Qed.

Lemma run_as_main_termination t_run t_end params lr σ :
  execute_action (self σ) (prepared params (self σ)) = Raised TaskTerminationException →
  run_as_main t_run t_end params lr σ =
    finish (Some "termination") (Ok PyNone)
      (with_self (with_force_termination false)
         (with_self (with_thread_terminate false)
            (ended "terminate" "unknown reason" t_end (started lr t_run σ)))).
Proof.
  intros Hb.
  unfold run_as_main, started, prepared, finish, ended, ran, end_record in *.
  destruct lr; run_main; rewrite Hb; run_main.
  all: destruct (on_finish (self σ)) as [cb|]; run_main;
    [destruct (cb (Some "termination"))|]; reflexivity.
Qed.

Lemma run_as_main_failed t_run t_end params lr σ e n :
  execute_action (self σ) (prepared params (self σ)) = Raised e →
  is_Exception e = true → is_sentinel e = false →
  _name (self σ) = Some n →
  run_as_main t_run t_end params lr σ =
    let σ1 := ended "fail" ("Task '" +:+ n +:+ "' failed") t_end (started lr t_run σ) in
    match on_failure (self σ) with
    | Some cb =>
        match cb e with
        | None =>
            finish (Some "failed") (Raise e)
              (with_self (with_exception (Some e)) (emit (OnFailure e) σ1))
        | Some e' => finish (Some "failed") (Raise e') (emit (OnFailure e) σ1)
        end
    | None => finish (Some "failed") (Raise e) (with_self (with_exception (Some e)) σ1)
    end.
Proof.
  intros Hb He Hs Hn.
  unfold run_as_main, started, prepared, finish, called in *.
  destruct lr; run_main; rewrite Hb; run_main.
  all: destruct e; try discriminate; run_main.
  all: rewrite (log_failure_eq _ _ n) by done; run_main.
  all: destruct (on_failure (self σ)) as [cf|]; run_main;
    [match goal with |- context [cf ?x] => destruct (cf x) end; run_main|].
  all: destruct (on_finish (self σ)) as [cb|]; run_main;
    [destruct (cb (Some "failed"))|]; reflexivity.
Qed.

Lemma run_as_main_base t_run t_end params lr σ e :
  execute_action (self σ) (prepared params (self σ)) = Raised e →
  is_Exception e = false →
  run_as_main t_run t_end params lr σ = finish None (Raise e) (started lr t_run σ).
Proof.
  intros Hb He.
  unfold run_as_main, started, prepared, finish, ran in *.
  destruct lr; run_main; rewrite Hb; run_main.
  all: destruct e; try discriminate; run_main.
  all: destruct (on_finish (self σ)) as [cb|]; run_main;
    [destruct (cb None)|]; reflexivity.
Qed.

Lemma finish_trace st r σ :
  trace (finish st r σ).2
    = trace σ ++ match on_finish (self σ) with
                 | Some _ => [OnFinish st]
                 | None => []
                 end.
Proof.
  unfold finish. destruct (on_finish (self σ)) as [cb|]; simpl.
  - by destruct (cb st).
  - by rewrite app_nil_r.
Qed.

Lemma finish_returns st r σ :
  (∀ cb, on_finish (self σ) = Some cb → cb st = None) →
  (finish st r σ).1 = r ∧ force_run (self (finish st r σ).2) = None.
Proof.
  intros Hcb. unfold finish. destruct (on_finish (self σ)) as [cb|]; simpl.
  - by rewrite (Hcb cb eq_refl).
  - done.
Qed.

Lemma finish_keeps st r σ :
  _status (self (finish st r σ).2) = _status (self σ) ∧
  exception (self (finish st r σ).2) = exception (self σ).
Proof.
  unfold finish. destruct (on_finish (self σ)) as [cb|]; simpl; [|done].
  by destruct (cb st).
Qed.

Lemma started_trace lr t_run σ :
  trace (started lr t_run σ)
    = trace σ ++ (if lr
                  then [Log (obj_id (self σ)) INFO false "" (run_extra t_run)]
                  else []).
Proof. destruct lr; simpl; [done|by rewrite app_nil_r]. Qed.

(** C1.  When the body raises [SchedulerRestart], the status is logged
    as success and [on_finish] is called with "succeeded", but
    [on_success] is not called, and what reaches the caller (if
    [on_finish] returns) is the [UnboundLocalError] of the local
    [output], not the [SchedulerRestart]. *)
Theorem run_as_main_scheduler_restart_unbound_output
    (t_run t_end : Z) (params : option (gmap string pyobj)) (lr : bool) (σ : Env) :
  execute_action (self σ) (prepared params (self σ)) = Raised SchedulerRestart →
  let out := run_as_main t_run t_end params lr σ in
  _status (self out.2) = Some "success" ∧
  (∃ evs, trace out.2 = trace σ ++ evs ∧
          List.filter is_success_call evs = [] ∧
          List.filter is_finish evs
            = match on_finish (self σ) with
              | Some _ => [OnFinish (Some "succeeded")]
              | None => []
              end) ∧
  ((∀ cb, on_finish (self σ) = Some cb → cb (Some "succeeded") = None) →
     out.1 = Raise (UnboundLocalError "output") ∧ out.1 ≠ Raise SchedulerRestart ∧
     force_run (self out.2) = None).
Proof.
  intros Hb out. subst out. rewrite (run_as_main_restart _ _ _ _ _ Hb).
  split; [|split].
  - by rewrite (proj1 (finish_keeps _ _ _)).
  - rewrite finish_trace. simpl. rewrite started_trace.
    eexists. rewrite <- !app_assoc. split; [reflexivity|].
    rewrite !List.filter_app. simpl.
    destruct lr; simpl; destruct (on_finish (self σ)); done.
  - intros Hcb.
    destruct (finish_returns (Some "succeeded") (Raise (UnboundLocalError "output"))
                (ended "success" "" t_end (started lr t_run σ))) as [-> ->].
    + by destruct lr.
    + done.
Qed.

Lemma run_as_main_scheduler_restart_unbound_output_witness :
  let σ := lone_env (watched_task 7 "t" (λ _, Raised SchedulerRestart)) "t" in
  let out := run_as_main 1 5 None true σ in
  _status (self out.2) = Some "success" ∧
  (∃ evs, trace out.2 = trace σ ++ evs ∧
          List.filter is_success_call evs = [] ∧
          List.filter is_finish evs = [OnFinish (Some "succeeded")]) ∧
  ((∀ cb, on_finish (self σ) = Some cb → cb (Some "succeeded") = None) →
     out.1 = Raise (UnboundLocalError "output") ∧ out.1 ≠ Raise SchedulerRestart ∧
     force_run (self out.2) = None).
Proof.
  exact (run_as_main_scheduler_restart_unbound_output 1 5 None true
           (lone_env (watched_task 7 "t" (λ _, Raised SchedulerRestart)) "t") eq_refl).
Defined.

(** The same run evaluated: the caller gets the [UnboundLocalError], the
    events are the two records and the call of [on_finish]. *)
Lemma run_as_main_scheduler_restart_run :
  let σ := lone_env (watched_task 7 "t" (λ _, Raised SchedulerRestart)) "t" in
  let out := run_as_main 1 5 None true σ in
  out.1 = Raise (UnboundLocalError "output") ∧
  trace out.2 = [Log 7 INFO false "" (run_extra 1);
                 Log 7 INFO false "" (end_extra "success" (Some 1) 5);
                 OnFinish (Some "succeeded")] ∧
  _status (self out.2) = Some "success" ∧
  force_run (self out.2) = None.
Proof. vm_compute. done. Qed.

(** C3, as stated, fails: the message of the fail record is the text
    "Task 't' failed" that [log_failure] builds, not the text "boom" of
    the exception. *)
Lemma run_as_main_fail_message_is_not_the_exception_text :
  let σ := lone_env (watched_task 7 "t" (λ _, Raised (UserException "boom"))) "t" in
  let out := run_as_main 1 5 None true σ in
  trace out.2 = [Log 7 INFO false "" (run_extra 1);
                 Log 7 ERROR true "Task 't' failed" (end_extra "fail" (Some 1) 5);
                 OnFailure (UserException "boom");
                 OnFinish (Some "failed")] ∧
  ¬ ∃ id lvl exc extra,
      Log id lvl exc (exn_str (UserException "boom")) extra ∈ trace out.2 ∧
      extra !! "action" = Some (PyStr "fail").
Proof.
  assert (trace (run_as_main 1 5 None true
            (lone_env (watched_task 7 "t" (λ _, Raised (UserException "boom"))) "t")).2
          = [Log 7 INFO false "" (run_extra 1);
             Log 7 ERROR true "Task 't' failed" (end_extra "fail" (Some 1) 5);
             OnFailure (UserException "boom");
             OnFinish (Some "failed")]) as Htr by (vm_compute; done).
  cbv zeta. split; [exact Htr|].
  intros (id & lvl & exc & extra & Hin & Hact). rewrite Htr in Hin.
  rewrite !elem_of_cons, elem_of_nil in Hin.
  destruct Hin as [H|[H|[H|[H|[]]]]]; discriminate.
Qed.

(** C3, amended.  When the body raises an ordinary exception [e], one
    fail record is emitted, with the message "Task '<name>' failed" and
    the traceback flag set; [on_failure], when there is one, is called
    once, with [e]; and when the callbacks return, [e] is attached to
    the task and raised again to the caller. *)
Theorem run_as_main_failure_logs_attaches_and_reraises
    (t_run t_end : Z) (params : option (gmap string pyobj)) (lr : bool) (σ : Env)
    (e : exn) (n : string) :
  execute_action (self σ) (prepared params (self σ)) = Raised e →
  is_Exception e = true → is_sentinel e = false →
  _name (self σ) = Some n →
  (∀ cb, on_failure (self σ) = Some cb → cb e = None) →
  (∀ cb, on_finish (self σ) = Some cb → cb (Some "failed") = None) →
  let out := run_as_main t_run t_end params lr σ in
  out.1 = Raise e ∧
  exception (self out.2) = Some e ∧
  _status (self out.2) = Some "fail" ∧
  trace out.2
    = trace (started lr t_run σ)
      ++ [Log (obj_id (self σ)) ERROR true ("Task '" +:+ n +:+ "' failed")
            (end_extra "fail" (start_time (self (started lr t_run σ))) t_end)]
      ++ match on_failure (self σ) with
         | Some _ => [OnFailure e]
         | None => []
         end
      ++ match on_finish (self σ) with
         | Some _ => [OnFinish (Some "failed")]
         | None => []
         end.
Proof.
  intros Hb He Hs Hn Hfail Hfin out. subst out.
  rewrite (run_as_main_failed _ _ _ _ _ _ _ Hb He Hs Hn). cbv zeta.
  assert (obj_id (self (started lr t_run σ)) = obj_id (self σ)) as Hid
    by by destruct lr.
  destruct (on_failure (self σ)) as [cf|] eqn:Hcf.
  - rewrite (Hfail cf eq_refl).
    match goal with |- context [finish ?st ?r ?s] =>
      destruct (finish_returns st r s) as [Hr Hf]; [by destruct lr|];
      destruct (finish_keeps st r s) as [Hst Hex];
      rewrite Hr, Hst, Hex, finish_trace
    end.
    simpl. rewrite Hid. repeat split.
    rewrite <- !app_assoc. simpl. by destruct lr.
  - match goal with |- context [finish ?st ?r ?s] =>
      destruct (finish_returns st r s) as [Hr Hf]; [by destruct lr|];
      destruct (finish_keeps st r s) as [Hst Hex];
      rewrite Hr, Hst, Hex, finish_trace
    end.
    simpl. rewrite Hid. repeat split.
    rewrite <- !app_assoc. simpl. by destruct lr.
Qed.

Lemma run_as_main_failure_logs_attaches_and_reraises_witness :
  let σ := lone_env (watched_task 7 "t" (λ _, Raised (UserException "boom"))) "t" in
  let out := run_as_main 1 5 None true σ in
  out.1 = Raise (UserException "boom") ∧
  exception (self out.2) = Some (UserException "boom") ∧
  _status (self out.2) = Some "fail" ∧
  trace out.2
    = trace (started true 1 σ)
      ++ [Log 7 ERROR true ("Task '" +:+ "t" +:+ "' failed")
            (end_extra "fail" (start_time (self (started true 1 σ))) 5)]
      ++ [OnFailure (UserException "boom")]
      ++ [OnFinish (Some "failed")].
Proof.
  apply (run_as_main_failure_logs_attaches_and_reraises 1 5 None true
           (lone_env (watched_task 7 "t" (λ _, Raised (UserException "boom"))) "t")
           (UserException "boom") "t").
  - reflexivity.
  - reflexivity.
  - reflexivity.
  - reflexivity.
  - simpl. intros cb [= <-]. reflexivity.
  - simpl. intros cb [= <-]. reflexivity.
Defined.

Lemma terminal_status_failed e :
  is_Exception e = true → is_sentinel e = false →
  terminal_status (Raised e) = Some "failed".
Proof. by destruct e. Qed.

Lemma terminal_status_base e :
  is_Exception e = false → terminal_status (Raised e) = None.
Proof. by destruct e. Qed.

(** The events of a run, the [on_finish] calls among them, and whether
    [force_run] is cleared, for a run that ends in [finish st r σ1]. *)
Lemma finish_once st r σ σ1 evs :
  on_finish (self σ1) = on_finish (self σ) →
  force_run (self σ1) = force_run (self σ) →
  trace σ1 = trace σ ++ evs →
  List.filter is_finish evs = [] →
  (∃ evs', trace (finish st r σ1).2 = trace σ ++ evs' ∧
           List.filter is_finish evs'
             = match on_finish (self σ) with
               | Some _ => [OnFinish st]
               | None => []
               end) ∧
  ((∀ cb, on_finish (self σ) = Some cb → cb st = None) →
   force_run (self (finish st r σ1).2) = None) ∧
  (∀ cb e, on_finish (self σ) = Some cb → cb st = Some e →
     (finish st r σ1).1 = Raise e ∧
     force_run (self (finish st r σ1).2) = force_run (self σ)).
Proof.
  intros Hof Hfr Htr Hnone. split; [|split].
  - rewrite finish_trace, Htr, Hof, <- app_assoc. eexists. split; [reflexivity|].
    rewrite List.filter_app, Hnone. by destruct (on_finish (self σ)).
  - intros Hcb. apply finish_returns. by rewrite Hof.
  - intros cb e Hcb He. unfold finish. rewrite Hof, Hcb, He. simpl. by rewrite Hfr.
Qed.




(** ** The name setter *)

Lemma suffixed_name_inj (name : string) : Inj (=) (=) (λ i : nat, NStr (name +:+ pretty i)).
Proof.
  intros i j H. injection H as H.
  apply (inj (String.app name)) in H. by apply (inj pretty) in H.
Qed.

(** What the search returns is free, and it is the first free one. *)
Lemma find_new_name_Some fuel i name reg s :
  find_new_name fuel i name reg = Some s →
  ∃ j, s = name +:+ pretty j ∧ (i ≤ j)%nat ∧
       reg !! NStr s = None ∧
       ∀ k, (i ≤ k < j)%nat → is_Some (reg !! NStr (name +:+ pretty k)).
Proof.
  revert i. induction fuel as [|fuel IH]; intros i; simpl; [done|].
  destruct (reg !! NStr (name +:+ pretty i)) as [x|] eqn:Hi.
  - intros H. destruct (IH _ H) as (j & -> & Hle & Hfree & Hbelow).
    exists j. split; [done|]. split; [lia|]. split; [done|].
    intros k Hk. destruct (decide (k = i)) as [->|]; [by rewrite Hi|].
    apply Hbelow. lia.
  - intros [= <-]. exists i. split; [done|]. split; [lia|]. split; [done|].
    intros k Hk. lia.
Qed.

(** The search gives up only if every name it tried is taken. *)
Lemma find_new_name_None fuel i name reg :
  find_new_name fuel i name reg = None →
  ∀ k, (i ≤ k < i + fuel)%nat → is_Some (reg !! NStr (name +:+ pretty k)).
Proof.
  revert i. induction fuel as [|fuel IH]; intros i; simpl; [intros; lia|].
  destruct (reg !! NStr (name +:+ pretty i)) as [x|] eqn:Hi; [|done].
  intros H k Hk. destruct (decide (k = i)) as [->|]; [by rewrite Hi|].
  apply (IH _ H). lia.
Qed.

(** A registry has fewer entries than the names tried: the search for a
    free name ends. *)
Lemma find_new_name_total fuel name (reg : gmap pyname nat) :
  (size reg < fuel)%nat → is_Some (find_new_name fuel 0 name reg).
Proof.
  intros Hsize.
  destruct (find_new_name fuel 0 name reg) as [s|] eqn:Hf; [by eexists|].
  exfalso.
  pose proof (find_new_name_None _ _ _ _ Hf) as Hall.
  set (f := λ i : nat, NStr (name +:+ pretty i)).
  assert (list_to_set (f <$> seq 0 fuel) ⊆ dom reg) as Hsub.
  { intros k. rewrite elem_of_list_to_set, list_elem_of_fmap.
    intros (i & -> & Hi). apply elem_of_seq in Hi.
    apply elem_of_dom, Hall. lia. }
  apply subseteq_size in Hsub.
  rewrite size_list_to_set, length_fmap, length_seq, size_dom in Hsub.
  - lia.
  - apply NoDup_fmap_2; [apply suffixed_name_inj|apply NoDup_seq].
Qed.

Lemma name_commit_old name old σ :
  is_Some (tasks σ !! NStr old) →
  name_commit name (Some old) σ
    = (Ok tt, with_tasks (delete (NStr old))
                (with_self (with_name (Some (str_of_name name))) σ)).
Proof.
  intros [x Hx]. unfold name_commit, bind, modify, get. simpl. by rewrite Hx.
Qed.

(** Entering the name in the registry and finishing the setter. *)
Lemma name_commit_insert name σ :
  _name (self σ) ≠ Some name →
  (∀ old, _name (self σ) = Some old → is_Some (tasks σ !! NStr old)) →
  ∃ σ',
    name_commit (NStr name) (_name (self σ))
      (with_tasks (insert (NStr name) (obj_id (self σ))) σ) = (Ok tt, σ') ∧
    renamed_to σ σ' name.
Proof.
  intros Hne Hreg. destruct (_name (self σ)) as [old|] eqn:Hold.
  - assert (old ≠ name) as Hon by congruence.
    eexists. split.
    + apply name_commit_old. simpl. rewrite lookup_insert_ne by congruence.
      by apply Hreg.
    + unfold renamed_to. simpl. rewrite Hold. repeat split.
      * rewrite lookup_delete_ne by congruence. by rewrite lookup_insert_eq.
      * intros ? [= <-]. by rewrite lookup_delete_eq.
      * intros k Hk1 Hk2. simpl in Hk2.
        rewrite lookup_delete_ne by congruence.
        by rewrite lookup_insert_ne by congruence.
  - eexists. split; [reflexivity|].
    unfold renamed_to. simpl. rewrite Hold. repeat split.
    + by rewrite lookup_insert_eq.
    + done.
    + intros k Hk1 _. by rewrite lookup_insert_ne by congruence.
Qed.

Lemma name_setter_same d fuel gdn name σ :
  _name (self σ) = Some name →
  name_setter (S d) fuel gdn (Some (NStr name)) σ = Some (Ok tt, σ).
Proof. intros Hn. simpl. rewrite Hn. simpl. by rewrite decide_True. Qed.

Lemma name_setter_install d fuel gdn name σ :
  _name (self σ) ≠ Some name →
  (∀ old, _name (self σ) = Some old → is_Some (tasks σ !! NStr old)) →
  tasks σ !! NStr name = None ∨ on_task_pre_exists (config σ) = "replace" →
  ∃ σ', name_setter (S d) fuel gdn (Some (NStr name)) σ = Some (Ok tt, σ') ∧
        renamed_to σ σ' name.
Proof.
  intros Hne Hreg Hfree.
  destruct (name_commit_insert name σ Hne Hreg) as (σ' & Hc & Hr).
  exists σ'. split; [|done]. simpl.
  rewrite decide_False; [|by destruct (_name (self σ)); simpl; congruence].
  destruct (tasks σ !! NStr name) as [x|] eqn:Hx.
  - destruct Hfree as [|Hp]; [done|]. rewrite Hp. simpl. by rewrite Hc.
  - by rewrite Hc.
Qed.

(** Under "rename" a taken name is replaced by the first free suffixed
    name, which goes through the setter again. *)
Lemma name_setter_rename d fuel gdn name σ x new_name :
  _name (self σ) ≠ Some name →
  tasks σ !! NStr name = Some x →
  on_task_pre_exists (config σ) = "rename" →
  find_new_name fuel 0 name (tasks σ) = Some new_name →
  name_setter (S d) fuel gdn (Some (NStr name)) σ
    = name_setter d fuel gdn (Some (NStr new_name)) σ.
Proof.
  intros Hne Hx Hp Hs. simpl.
  rewrite decide_False; [|by destruct (_name (self σ)); simpl; congruence].
  rewrite Hx, Hp. simpl. by rewrite Hs.
Qed.

(** C8, as stated, fails under the policy "ignore": the task takes the
    name "t", and the registry goes on mapping "t" to the task that had
    it (7), not to the task that was named (9). *)
Lemma name_setter_ignore_keeps_the_other_task :
  ∃ σ',
    name_setter 2 3 None (Some (NStr "t")) (two_task_env "ignore") = Some (Ok tt, σ') ∧
    _name (self σ') = Some "t" ∧
    obj_id (self σ') = 9%nat ∧
    tasks σ' !! NStr "t" = Some 7%nat ∧
    ¬ (∀ final, _name (self σ') = Some final →
                tasks σ' !! NStr final = Some (obj_id (self σ'))).
Proof.
  eexists. split; [vm_compute; reflexivity|].
  split; [reflexivity|]. split; [reflexivity|]. split; [reflexivity|].
  intros H. specialize (H "t" eq_refl). vm_compute in H. discriminate.
Qed.

(** C8, amended.  For a task whose current name (if it has one) is in
    the registry and a string [name]: the setter does nothing when
    [name] is the current name.  Otherwise, when [name] is free or the
    policy is "replace", the task is named [name], the registry maps
    [name] to it, and the old name is gone; under "rename" with [name]
    taken the same holds for [name] with the smallest number appended
    that gives a free name; under "ignore" with [name] taken the task is
    named [name], its old name is gone, and the registry entry of
    [name] stays with the task that had it; under "raise" with [name]
    taken a [KeyError] is raised and nothing changes. *)
Theorem name_setter_updates_registry (depth fuel : nat) (gdn : option string)
    (name : string) (σ : Env) :
  (∀ old, _name (self σ) = Some old → is_Some (tasks σ !! NStr old)) →
  (2 ≤ depth)%nat → (size (tasks σ) < fuel)%nat →
  let set := name_setter depth fuel gdn (Some (NStr name)) σ in
  let policy := on_task_pre_exists (config σ) in
  (_name (self σ) = Some name → set = Some (Ok tt, σ)) ∧
  (_name (self σ) ≠ Some name →
   (tasks σ !! NStr name = None ∨ policy = "replace" →
      ∃ σ', set = Some (Ok tt, σ') ∧ renamed_to σ σ' name) ∧
   (is_Some (tasks σ !! NStr name) → policy = "rename" →
      ∃ σ' i, set = Some (Ok tt, σ') ∧ renamed_to σ σ' (name +:+ pretty i) ∧
              tasks σ !! NStr (name +:+ pretty i) = None ∧
              ∀ j, (j < i)%nat → is_Some (tasks σ !! NStr (name +:+ pretty j))) ∧
   (is_Some (tasks σ !! NStr name) → policy = "ignore" →
      ∃ σ', set = Some (Ok tt, σ') ∧
            _name (self σ') = Some name ∧
            tasks σ' !! NStr name = tasks σ !! NStr name ∧
            (∀ old, _name (self σ) = Some old → tasks σ' !! NStr old = None)) ∧
   (is_Some (tasks σ !! NStr name) → policy = "raise" →
      ∃ msg, set = Some (Raise (KeyError msg), σ))).
Proof.
  intros Hreg Hdepth Hfuel set policy. subst set policy.
  destruct depth as [|[|d]]; [lia|lia|]. split.
  - apply name_setter_same.
  - intros Hne. split; [|split; [|split]].
    + by apply name_setter_install.
    + intros [x Hx] Hp.
      destruct (find_new_name_total fuel name (tasks σ) Hfuel) as [s Hs].
      destruct (find_new_name_Some _ _ _ _ _ Hs) as (i & -> & _ & Hfree & Hbelow).
      assert (_name (self σ) ≠ Some (name +:+ pretty i)) as Hne'.
      { intros Hold. destruct (Hreg _ Hold) as [y Hy]. congruence. }
      destruct (name_setter_install d fuel gdn (name +:+ pretty i) σ Hne' Hreg
                  (or_introl Hfree)) as (σ' & Hset & Hren).
      exists σ', i. split; [|split; [done|split; [done|]]].
      * rewrite <- Hset. by eapply name_setter_rename.
      * intros j Hj. apply Hbelow. lia.
    + intros [x Hx] Hp. simpl.
      rewrite decide_False; [|by destruct (_name (self σ)); simpl; congruence].
      rewrite Hx, Hp. simpl.
      destruct (_name (self σ)) as [old|] eqn:Hold.
      * assert (old ≠ name) as Hon by congruence.
        rewrite name_commit_old by by apply Hreg.
        eexists. split; [reflexivity|]. simpl. repeat split.
        -- by rewrite lookup_delete_ne by congruence.
        -- intros ? [= <-]. by rewrite lookup_delete_eq.
      * eexists. split; [reflexivity|]. simpl. by repeat split.
    + intros [x Hx] Hp. simpl.
      rewrite decide_False; [|by destruct (_name (self σ)); simpl; congruence].
      rewrite Hx, Hp. simpl. by eexists.
Qed.

Lemma name_setter_updates_registry_witness :
  ∃ σ' i,
    name_setter 2 3 None (Some (NStr "t")) (two_task_env "rename") = Some (Ok tt, σ') ∧
    renamed_to (two_task_env "rename") σ' ("t" +:+ pretty i) ∧
    tasks (two_task_env "rename") !! NStr ("t" +:+ pretty i) = None ∧
    ∀ j, (j < i)%nat →
         is_Some (tasks (two_task_env "rename") !! NStr ("t" +:+ pretty j)).
Proof.
  refine (proj1 (proj2 (proj2
    (name_setter_updates_registry 2 3 None "t" (two_task_env "rename") _ _ _) _)) _ _).
  - simpl. intros old H. discriminate H.
  - lia.
  - vm_compute. lia.
  - simpl. discriminate.
  - vm_compute. by eexists.
  - reflexivity.
Defined.

(** The scenario of the rename policy: with "t" and "t0" registered, a
    third task named "t" becomes "t1" and the registry holds the three. *)
Lemma name_setter_rename_t_t0_gives_t1 :
  ∃ σ',
    name_setter 2 3 None (Some (NStr "t")) (two_task_env "rename") = Some (Ok tt, σ') ∧
    _name (self σ') = Some "t1" ∧
    tasks σ' = <[NStr "t1" := 9%nat]> (<[NStr "t" := 7%nat]> (<[NStr "t0" := 8%nat]> ∅)).
Proof.
  eexists. split; [vm_compute; reflexivity|]. split; [reflexivity|].
  vm_compute. reflexivity.
Qed.

(** ** Proof of start *)

Lemma task_after_keeps reg ps i t :
  obj_id (task_after reg ps i t) = obj_id t ∧
  _name (task_after reg ps i t) = _name t ∧
  _thread (task_after reg ps i t) = _thread t ∧
  _process (task_after reg ps i t) = _process t.
Proof.
  revert t. induction ps as [|p ps IH]; intros t; [done|]. simpl.
  destruct p as [r|ta pa]; [|apply IH].
  destruct (decide (reg !! NStr (task_name r) = Some i)); [|apply IH].
  destruct (IH (with_status (Some (action r)) t)) as (-> & -> & -> & ->). done.
Qed.

Lemma is_alive_same ta pa t t' :
  _thread t' = _thread t → _process t' = _process t →
  is_alive ta pa t' = is_alive ta pa t.
Proof.
  intros Ht Hp. unfold is_alive, is_alive_as_thread, is_alive_as_process.
  by rewrite Ht, Hp.
Qed.

Lemma quiet_same reg t t' p :
  _thread t' = _thread t → _process t' = _process t →
  quiet reg t p → quiet reg t' p.
Proof.
  intros Ht Hp. destruct p as [r|ta pa]; simpl; [done|].
  by rewrite (is_alive_same ta pa t t').
Qed.

(** One round on a record whose action is not [run]. *)
Lemma lock_round_record this r rest w tid :
  store_ok w →
  w_tasks w !! NStr (task_name r) = Some tid →
  action r ≠ "run" →
  ∃ w1, replayed this [Popped r] w w1 ∧
        _lock_to_run_log this (Popped r :: rest) w = _lock_to_run_log this rest w1.
Proof.
  intros Hok Hreg Hrun. eexists. split; [|simpl].
  2: { unfold bind at 1, w_emit, modify. simpl.
       unfold bind at 1, focus at 1, logger_call. simpl.
       unfold bind at 1, get_task. simpl. rewrite Hreg.
       unfold bind at 1, focus, log_record, bind, get, modify. simpl.
       rewrite decide_False by done. reflexivity. }
  unfold replayed. simpl. repeat split.
  - rewrite Hreg, (Hok this). rewrite <- !app_assoc. simpl.
    do 4 f_equal.
    destruct (decide (this = tid)) as [->|Hne].
    + by rewrite fn_lookup_insert, (Hok tid).
    + by rewrite fn_lookup_insert_ne, (Hok tid).
  - intros i. rewrite Hreg.
    destruct (decide (Some tid = Some i)) as [[= <-]|Hne].
    + rewrite fn_lookup_insert. f_equal.
      destruct (decide (this = tid)) as [->|Hne'].
      * by rewrite fn_lookup_insert.
      * by rewrite fn_lookup_insert_ne.
    + rewrite fn_lookup_insert_ne by congruence.
      destruct (decide (this = i)) as [->|Hne'].
      * by rewrite fn_lookup_insert.
      * by rewrite fn_lookup_insert_ne.
Qed.

(** One round on a timeout while the worker is alive. *)
Lemma lock_round_timeout this ta pa rest w :
  is_alive ta pa (objs w this) = true →
  ∃ w1, replayed this [QEmpty ta pa] w w1 ∧
        _lock_to_run_log this (QEmpty ta pa :: rest) w = _lock_to_run_log this rest w1.
Proof.
  intros Halive. eexists. split; [|simpl].
  2: { unfold bind at 1, w_emit, modify. simpl.
       unfold bind at 1, gets. simpl. rewrite Halive. simpl. reflexivity. }
  unfold replayed. simpl. done.
Qed.

Lemma replayed_nil this w : replayed this [] w w.
Proof. unfold replayed. simpl. by rewrite app_nil_r. Qed.

Lemma replayed_app this ps qs w w1 w2 :
  replayed this ps w w1 → replayed this qs w1 w2 → replayed this (ps ++ qs) w w2.
Proof.
  intros (Ht1 & Hc1 & Hh1 & Htr1 & Ho1) (Ht2 & Hc2 & Hh2 & Htr2 & Ho2).
  unfold replayed. repeat split; try congruence.
  - rewrite Htr2, Htr1, Ht1, flat_map_app. by rewrite <- app_assoc.
  - intros i. rewrite Ho2, Ho1, Ht1. unfold task_after. by rewrite fold_left_app.
Qed.

Lemma replayed_store_ok this ps w w1 :
  store_ok w → replayed this ps w w1 → store_ok w1.
Proof.
  intros Hok (_ & _ & _ & _ & Ho) i. rewrite Ho.
  by rewrite (proj1 (task_after_keeps _ _ _ _)).
Qed.

(** The rounds for a run of quiet pops. *)
Lemma lock_quiet_rounds this pre rest w :
  store_ok w →
  Forall (quiet (w_tasks w) (objs w this)) pre →
  ∃ w1, replayed this pre w w1 ∧
        _lock_to_run_log this (pre ++ rest) w = _lock_to_run_log this rest w1.
Proof.
  revert w. induction pre as [|p pre IH]; intros w Hok Hq.
  { exists w. split; [apply replayed_nil|done]. }
  apply Forall_cons in Hq as [Hp Hq].
  assert (∃ w1, replayed this [p] w w1 ∧
                _lock_to_run_log this (p :: pre ++ rest) w
                  = _lock_to_run_log this (pre ++ rest) w1) as (w1 & Hr1 & Heq1).
  { destruct p as [r|ta pa]; simpl in Hp.
    - destruct Hp as [Hrun [tid Htid]]. by eapply lock_round_record.
    - by apply lock_round_timeout. }
  destruct (IH w1) as (w2 & Hr2 & Heq2).
  - by eapply replayed_store_ok.
  - destruct Hr1 as (Ht1 & _ & _ & _ & Ho1). rewrite Ht1.
    eapply Forall_impl; [exact Hq|]. intros q. apply quiet_same.
    all: rewrite Ho1; apply task_after_keeps.
  - exists w2. split; [by apply (replayed_app this [p] pre w w1 w2)|].
    simpl app. by rewrite Heq1, Heq2.
Qed.

(** The round on a [run] record ends the loop. *)
Lemma lock_round_run this r rest w tid :
  store_ok w →
  w_tasks w !! NStr (task_name r) = Some tid →
  action r = "run" →
  ∃ w1, replayed this [Popped r] w w1 ∧
        _lock_to_run_log this (Popped r :: rest) w = (Ok Finished, w1).
Proof.
  intros Hok Hreg Hrun. eexists. split; [|simpl].
  2: { unfold bind at 1, w_emit, modify. simpl.
       unfold bind at 1, focus at 1, logger_call. simpl.
       unfold bind at 1, get_task. simpl. rewrite Hreg.
       unfold bind at 1, focus, log_record, bind, get, modify. simpl.
       rewrite decide_True by done. reflexivity. }
  unfold replayed. simpl. repeat split.
  - rewrite Hreg, (Hok this). rewrite <- !app_assoc. simpl.
    do 4 f_equal.
    destruct (decide (this = tid)) as [->|Hne].
    + by rewrite fn_lookup_insert, (Hok tid).
    + by rewrite fn_lookup_insert_ne, (Hok tid).
  - intros i. rewrite Hreg.
    destruct (decide (Some tid = Some i)) as [[= <-]|Hne].
    + rewrite fn_lookup_insert. f_equal.
      destruct (decide (this = tid)) as [->|Hne'].
      * by rewrite fn_lookup_insert.
      * by rewrite fn_lookup_insert_ne.
    + rewrite fn_lookup_insert_ne by congruence.
      destruct (decide (this = i)) as [->|Hne'].
      * by rewrite fn_lookup_insert.
      * by rewrite fn_lookup_insert_ne.
Qed.

(** The round on a timeout with no worker alive logs the crash and ends
    the loop. *)
Lemma lock_round_crash this ta pa rest w n :
  store_ok w →
  _name (objs w this) = Some n →
  is_alive ta pa (objs w this) = false →
  ∃ w1,
    _lock_to_run_log this (QEmpty ta pa :: rest) w = (Ok Finished, w1) ∧
    w_trace w1 = w_trace w
      ++ [QueueGet true 10;
          Log this CRITICAL false ("Task '" +:+ n +:+ "' crashed in setup")
            {[ "action" := PyStr "fail" ]}] ∧
    w_tasks w1 = w_tasks w ∧
    ∀ i, objs w1 i = objs w i.
Proof.
  intros Hok Hn Halive. eexists. split; [|simpl].
  { simpl. unfold bind at 1, w_emit, modify. simpl.
    unfold bind at 1, gets. simpl. rewrite Halive. simpl.
    unfold bind at 1, focus, bind, name_getter, logger_call. simpl.
    rewrite Hn. reflexivity. }
  repeat split; simpl.
  - rewrite (Hok this), <- app_assoc. reflexivity.
  - intros i. destruct (decide (this = i)) as [->|Hne].
    + by rewrite fn_lookup_insert.
    + by rewrite fn_lookup_insert_ne.
Qed.

(** C6, as stated, fails: a pop that times out while the worker process
    is alive logs nothing and does not end the loop; the dispatcher goes
    on popping, here until the [run] record arrives. *)
Lemma lock_to_run_log_timeout_with_live_worker :
  let out := _lock_to_run_log 7 [QEmpty false true; Popped run_record_of_t]
               two_task_world in
  out.1 = Ok Finished ∧
  w_trace out.2
    = [QueueGet true 10; QueueGet true 10;
       Log 7 DEBUG false "Inserting record for 't' (run)" ∅;
       Handle 7 run_record_of_t] ∧
  (_lock_to_run_log 7 [QEmpty false true] two_task_world).1 = Ok StillWaiting ∧
  ¬ ∃ id lvl exc msg extra,
      Log id lvl exc msg extra ∈ w_trace out.2 ∧
      extra !! "action" = Some (PyStr "fail").
Proof.
  assert (w_trace (_lock_to_run_log 7 [QEmpty false true; Popped run_record_of_t]
                     two_task_world).2
          = [QueueGet true 10; QueueGet true 10;
             Log 7 DEBUG false "Inserting record for 't' (run)" ∅;
             Handle 7 run_record_of_t]) as Htr by (vm_compute; done).
  cbv zeta. split; [by vm_compute|]. split; [exact Htr|].
  split; [by vm_compute|].
  intros (id & lvl & exc & msg & extra & Hin & Hact). rewrite Htr in Hin.
  rewrite !elem_of_cons, elem_of_nil in Hin.
  destruct Hin as [H|[H|[H|[H|[]]]]]; try discriminate.
  injection H as _ _ _ _ ->. by rewrite lookup_empty in Hact.
Qed.

(** C6, amended.  The loop pops with a blocking timeout of 10 seconds.
    As long as the pops are records that are not [run] records, or
    timeouts during which the worker is alive, it replays each record
    into the task the record names and goes on.  It returns after
    replaying the first [run] record; and it returns at the first
    timeout at which the worker is not alive, after logging, at level
    critical and with action fail, "Task '<name>' crashed in setup". *)
Theorem lock_to_run_log_proof_of_start (this : nat) (pre rest : list pop)
    (w : World) (n : string) :
  store_ok w →
  _name (objs w this) = Some n →
  Forall (quiet (w_tasks w) (objs w this)) pre →
  (∀ r tid, action r = "run" → w_tasks w !! NStr (task_name r) = Some tid →
     ∃ w', _lock_to_run_log this (pre ++ Popped r :: rest) w = (Ok Finished, w') ∧
           replayed this (pre ++ [Popped r]) w w') ∧
  (∀ ta pa, is_alive ta pa (objs w this) = false →
     ∃ w', _lock_to_run_log this (pre ++ QEmpty ta pa :: rest) w = (Ok Finished, w') ∧
           w_trace w'
             = w_trace w ++ flat_map (pop_events (w_tasks w) this) pre
               ++ [QueueGet true 10;
                   Log this CRITICAL false ("Task '" +:+ n +:+ "' crashed in setup")
                     {[ "action" := PyStr "fail" ]}] ∧
           ∀ i, objs w' i = task_after (w_tasks w) pre i (objs w i)) ∧
  (∃ w', _lock_to_run_log this pre w = (Ok StillWaiting, w') ∧
         replayed this pre w w').
Proof.
  intros Hok Hn Hq. split; [|split].
  - intros r tid Hrun Htid.
    destruct (lock_quiet_rounds this pre (Popped r :: rest) w Hok Hq)
      as (w1 & Hr1 & ->).
    destruct (lock_round_run this r rest w1 tid) as (w2 & Hr2 & ->).
    + by eapply replayed_store_ok.
    + destruct Hr1 as (-> & _). done.
    + done.
    + exists w2. split; [done|]. by eapply replayed_app.
  - intros ta pa Halive.
    destruct (lock_quiet_rounds this pre (QEmpty ta pa :: rest) w Hok Hq)
      as (w1 & Hr1 & ->).
    pose proof Hr1 as (Ht1 & _ & _ & Htr1 & Ho1).
    destruct (lock_round_crash this ta pa rest w1 n) as (w2 & -> & Htr2 & _ & Ho2).
    + by eapply replayed_store_ok.
    + rewrite Ho1. by rewrite (proj1 (proj2 (task_after_keeps _ _ _ _))).
    + rewrite <- Halive. apply is_alive_same; rewrite Ho1; apply task_after_keeps.
    + exists w2. split; [done|]. split.
      * by rewrite Htr2, Htr1, <- app_assoc.
      * intros i. by rewrite Ho2, Ho1.
  - destruct (lock_quiet_rounds this pre [] w Hok Hq) as (w1 & Hr1 & Heq).
    rewrite app_nil_r in Heq. exists w1. by rewrite Heq.
Qed.

Lemma two_task_world_ok : store_ok two_task_world.
Proof.
  intros i. unfold two_task_world. simpl.
  destruct (decide (i = 7%nat)) as [->|]; reflexivity.
Qed.

Lemma lock_to_run_log_proof_of_start_witness :
  (∀ r tid, action r = "run" →
            w_tasks two_task_world !! NStr (task_name r) = Some tid →
     ∃ w', _lock_to_run_log 7 ([QEmpty false true] ++ Popped r :: []) two_task_world
             = (Ok Finished, w') ∧
           replayed 7 ([QEmpty false true] ++ [Popped r]) two_task_world w') ∧
  (∀ ta pa, is_alive ta pa (objs two_task_world 7) = false →
     ∃ w', _lock_to_run_log 7 ([QEmpty false true] ++ QEmpty ta pa :: []) two_task_world
             = (Ok Finished, w') ∧
           w_trace w'
             = w_trace two_task_world
               ++ flat_map (pop_events (w_tasks two_task_world) 7) [QEmpty false true]
               ++ [QueueGet true 10;
                   Log 7 CRITICAL false ("Task '" +:+ "t" +:+ "' crashed in setup")
                     {[ "action" := PyStr "fail" ]}] ∧
           ∀ i, objs w' i
                = task_after (w_tasks two_task_world) [QEmpty false true] i
                    (objs two_task_world i)) ∧
  (∃ w', _lock_to_run_log 7 [QEmpty false true] two_task_world = (Ok StillWaiting, w') ∧
         replayed 7 [QEmpty false true] two_task_world w').
Proof.
  apply (lock_to_run_log_proof_of_start 7 [QEmpty false true] [] two_task_world "t").
  - exact two_task_world_ok.
  - reflexivity.
  - constructor; [reflexivity|constructor].
Defined.

(** ** Conditions handed to a task *)

Section copy_isolation.

(** What the [DependSuccess] leaves read from the log, and the parser of
    condition strings. *)
Context (ds : string → option nat → bool).
Context (parse_condition : string → M Env cond_val).

Local Abbreviation made arg dflt :=
  (match arg with
   | None => new_cond dflt
   | Some c => copy c
   end).

Lemma all_of_ext f g cs :
  (∀ c, c ∈ cs → f c = g c) → all_of f cs = all_of g cs.
Proof.
  induction cs as [|c cs IH]; intros H; simpl; [done|].
  rewrite (H c) by set_solver. rewrite IH; [done|].
  intros c' Hc'. apply H. set_solver.
Qed.

Lemma any_of_ext f g cs :
  (∀ c, c ∈ cs → f c = g c) → any_of f cs = any_of g cs.
Proof.
  induction cs as [|c cs IH]; intros H; simpl; [done|].
  rewrite (H c) by set_solver. rewrite IH; [done|].
  intros c' Hc'. apply H. set_solver.
Qed.

(** Writing to an object that is not at or below [r] does not change
    the truth value of [r]. *)
Lemma cond_bool_insert_unreachable n h r l v :
  r ≠ l → ¬ reach h r l →
  cond_bool ds n (<[l := v]> h) r = cond_bool ds n h r.
Proof.
  revert r. induction n as [|n IH]; intros r Hne Hnr; simpl; [done|].
  rewrite lookup_insert_ne by done.
  destruct (h !! r) as [o|] eqn:Hr; [|done].
  assert (∀ c, c ∈ children o → c ≠ l ∧ ¬ reach h c l) as Hbelow.
  { intros c Hc. split.
    - intros ->. apply Hnr. by eapply reach_child.
    - intros Hcl. apply Hnr. by eapply reach_step. }
  assert (∀ x, x ∈ children o →
            items_of (<[l := v]> h) x = items_of h x ∧
            ∀ cs c, items_of h x = Some cs → c ∈ cs →
                    cond_bool ds n (<[l := v]> h) c = cond_bool ds n h c) as Hlist.
  { intros x Hx. destruct (Hbelow x Hx) as [Hxl Hxr]. split.
    - unfold items_of. by rewrite lookup_insert_ne.
    - intros cs c Hcs Hc. unfold items_of in Hcs.
      destruct (h !! x) as [[]|] eqn:Hhx; try done. injection Hcs as ->.
      apply IH.
      + intros ->. apply Hxr. by eapply reach_child.
      + intros Hcl. apply Hxr. by eapply reach_step. }
  destruct o as [| |d t|c|r'|r'|cs]; simpl in *; try done.
  - destruct (Hbelow c) as [? ?]; [by constructor|]. by rewrite IH.
  - destruct (Hlist r') as [Hi Hc]; [by constructor|]. rewrite Hi.
    destruct (items_of h r') as [cs|] eqn:Hcs; simpl; [|done].
    apply all_of_ext. intros c Hcin. by apply (Hc cs).
  - destruct (Hlist r') as [Hi Hc]; [by constructor|]. rewrite Hi.
    destruct (items_of h r') as [cs|] eqn:Hcs; simpl; [|done].
    apply any_of_ext. intros c Hcin. by apply (Hc cs).
Qed.

Lemma grows_refl h : grows h h.
Proof. intros x o Hx. by exists o. Qed.

Lemma grows_trans h1 h2 h3 : grows h1 h2 → grows h2 h3 → grows h1 h3.
Proof.
  intros H12 H23 x o Hx.
  destruct (H12 x o Hx) as (o2 & Hx2 & Hc2).
  destruct (H23 x o2 Hx2) as (o3 & Hx3 & Hc3).
  exists o3. split; [done|congruence].
Qed.

(** Below an object of a closed heap there are, after the heap grew,
    the objects that were there before. *)
Lemma reach_inside h hf x y :
  grows h hf → heap_closed h → is_Some (h !! x) →
  reach hf x y → reach h x y.
Proof.
  intros Hg Hcl Hx Hr. induction Hr as [x o2 c Hxf Hc|x o2 c y Hxf Hc Hr IH].
  - destruct Hx as [o Hx]. destruct (Hg x o Hx) as (o' & Hx' & Hch).
    assert (o' = o2) as -> by congruence.
    eapply reach_child; [exact Hx|]. by rewrite <- Hch.
  - destruct Hx as [o Hx]. destruct (Hg x o Hx) as (o' & Hx' & Hch).
    assert (o' = o2) as -> by congruence.
    rewrite Hch in Hc.
    eapply reach_step; [exact Hx|exact Hc|]. apply IH. by eapply Hcl.
Qed.

(** *** Filling task slots *)

Lemma slot_filled_refl o : slot_filled o o.
Proof. by left. Qed.

Lemma slot_filled_trans o1 o2 o3 :
  slot_filled o1 o2 → slot_filled o2 o3 → slot_filled o1 o3.
Proof.
  intros [->|(d & t & -> & ->)] [->|(d' & t' & H & ->)].
  - by left.
  - right. by exists d', t'.
  - right. by exists d, t.
  - discriminate.
Qed.

Lemma slot_filled_children o o' : slot_filled o o' → children o' = children o.
Proof. by intros [->|(d & t & -> & ->)]. Qed.

(** An object without an empty task slot stays what it is. *)
Lemma slot_filled_bound o o' :
  slot_filled o o' → (∀ d, o ≠ DependSuccess d None) → o' = o.
Proof. intros [->|(d & t & -> & ->)] H; [done|]. by destruct (H d). Qed.

Lemma binds_refl h : binds h h.
Proof. intros x o Hx. exists o. split; [done|apply slot_filled_refl]. Qed.

Lemma binds_trans h1 h2 h3 : binds h1 h2 → binds h2 h3 → binds h1 h3.
Proof.
  intros H12 H23 x o Hx.
  destruct (H12 x o Hx) as (o2 & Hx2 & Hs2).
  destruct (H23 x o2 Hx2) as (o3 & Hx3 & Hs3).
  exists o3. split; [done|by eapply slot_filled_trans].
Qed.

Lemma binds_insert_fresh h l o : h !! l = None → binds h (<[l := o]> h).
Proof.
  intros Hl x ox Hx. exists ox. split; [|apply slot_filled_refl].
  rewrite lookup_insert_ne; [done|congruence].
Qed.

Lemma binds_grows h h' : binds h h' → grows h h'.
Proof.
  intros Hb x o Hx. destruct (Hb x o Hx) as (o' & Hx' & Hs).
  exists o'. split; [done|by apply slot_filled_children].
Qed.

(** No object of [h] is missing from [h']. *)
Lemma binds_None h h' x : binds h h' → h' !! x = None → h !! x = None.
Proof.
  intros Hb Hx. destruct (h !! x) as [o|] eqn:Ho; [|done].
  destruct (Hb x o Ho) as (o' & Hx' & _). congruence.
Qed.

Lemma items_of_binds h h' r cs :
  binds h h' → items_of h r = Some cs → items_of h' r = Some cs.
Proof.
  unfold items_of. intros Hb H.
  destruct (h !! r) as [o|] eqn:Hr; [|done].
  destruct (Hb _ _ Hr) as (o' & -> & Hs).
  destruct o; try done.
  by rewrite (slot_filled_bound _ _ Hs).
Qed.

(** A tree stays as tall as it was while slots are filled and objects
    are added. *)
Lemma tall_binds h h' n l : binds h h' → tall h n l = true → tall h' n l = true.
Proof.
  intros Hb. revert l. induction n as [|n IH]; intros l; simpl; [done|].
  destruct (h !! l) as [o|] eqn:Hl; [|done].
  destruct (Hb _ _ Hl) as (o' & -> & Hs).
  destruct o as [| |d0 t0|c|r|r|cs];
    (destruct Hs as [->|(d & t & Hd & ->)]; [|try discriminate Hd]); try done.
  - apply IH.
  - destruct (items_of h r) as [cs|] eqn:Hi; [|done].
    rewrite (items_of_binds _ _ _ _ Hb Hi), !forallb_forall.
    intros H x Hx. by apply IH, H.
  - destruct (items_of h r) as [cs|] eqn:Hi; [|done].
    rewrite (items_of_binds _ _ _ _ Hb Hi), !forallb_forall.
    intros H x Hx. by apply IH, H.
Qed.

Lemma cond_ok_binds h h' n c :
  binds h h' → cond_ok h n c = true → cond_ok h' n c = true.
Proof. destruct c; simpl; [done| |done]. apply tall_binds. Qed.

(** The shallow copy of the root of a tree is the root of a tree of the
    same height. *)
Lemma tall_copy h n l o l' :
  h !! l = Some o → h !! l' = None → tall h n l = true →
  tall (<[l' := o]> h) n l' = true.
Proof.
  intros Hl Hf Ht.
  pose proof (tall_binds _ _ _ _ (binds_insert_fresh h l' o Hf) Ht) as Ht'.
  destruct n; [done|]. simpl in *.
  rewrite lookup_insert_eq. rewrite lookup_insert_ne in Ht' by congruence.
  by rewrite Hl in Ht'.
Qed.

(** [set_statement_defaults] fills task slots and nothing else. *)
Lemma bind_defaults_binds fuel task l h h' :
  bind_defaults fuel task l h = Some h' → binds h h'.
Proof.
  revert l h h'. induction fuel as [|n IH]; intros l h h'; simpl; [done|].
  assert (∀ cs acc,
            foldl (λ acc c, acc ≫= bind_defaults n task c) acc cs = Some h' →
            ∃ h0, acc = Some h0 ∧ binds h0 h') as Hfold.
  { induction cs as [|c cs IHcs]; intros acc; simpl.
    - intros ->. eexists. split; [done|apply binds_refl].
    - intros H. destruct (IHcs _ H) as (h1 & Hacc & Hg1).
      destruct acc as [h0|]; [|done]. simpl in Hacc.
      exists h0. split; [done|]. eapply binds_trans; [|exact Hg1]. by eapply IH. }
  destruct (h !! l) as [o|] eqn:Hl; [|done].
  destruct o as [| |d [t|]|c|r|r|cs]; try (intros [= <-]; apply binds_refl).
  - intros [= <-]. intros x o Hx. destruct (decide (x = l)) as [->|Hne].
    + rewrite lookup_insert_eq. eexists. split; [done|].
      rewrite Hl in Hx. injection Hx as <-. right. by exists d, task.
    + rewrite lookup_insert_ne by done. exists o. split; [done|apply slot_filled_refl].
  - apply IH.
  - destruct (items_of h r) as [cs|]; simpl; [|done].
    intros H. by destruct (Hfold _ _ H) as (h0 & [= <-] & Hg).
  - destruct (items_of h r) as [cs|]; simpl; [|done].
    intros H. by destruct (Hfold _ _ H) as (h0 & [= <-] & Hg).
Qed.

(** On a tree of height at most [n] the walk ends within [n] levels. *)
Lemma bind_defaults_total n task l h :
  tall h n l = true → is_Some (bind_defaults n task l h).
Proof.
  revert l h. induction n as [|n IH]; intros l h; simpl; [done|].
  assert (∀ cs h0, forallb (tall h0 n) cs = true →
            is_Some (foldl (λ acc c, acc ≫= bind_defaults n task c) (Some h0) cs))
    as Hfold.
  { induction cs as [|c cs IHcs]; intros h0 Hall; simpl; [by eexists|].
    apply andb_prop in Hall as [Hc Hcs].
    destruct (IH c h0 Hc) as [h1 Hh1]. rewrite Hh1. apply IHcs.
    apply forallb_forall. intros x Hx.
    eapply tall_binds; [by eapply bind_defaults_binds|].
    revert x Hx. by apply forallb_forall. }
  destruct (h !! l) as [o|] eqn:Hl; [|done].
  destruct o as [| |d [t|]|c|r|r|cs]; try (intros _; by eexists); try done.
  - apply IH.
  - destruct (items_of h r) as [cs|]; simpl; [|done]. apply Hfold.
  - destruct (items_of h r) as [cs|]; simpl; [|done]. apply Hfold.
Qed.

Lemma bindF_step {S A B} (m : MF S A) (k : A → MF S B) s a s1 :
  m s = Some (Ok a, s1) → bindF m k s = k a s1.
Proof. unfold bindF. by intros ->. Qed.

Lemma set_statement_defaults_returns fuel c σ :
  cond_ok (heap σ) fuel c = true →
  ∃ σ', set_statement_defaults fuel c σ = Some (Ok tt, σ') ∧
        binds (heap σ) (heap σ') ∧ self σ' = self σ.
Proof.
  unfold set_statement_defaults. destruct c as [b|l|o]; simpl; [| |done].
  - intros _. exists σ. split; [done|]. split; [apply binds_refl|done].
  - intros Ht.
    destruct (bind_defaults_total fuel (obj_id (self σ)) l (heap σ) Ht) as [h' Hb].
    rewrite Hb. eexists. split; [done|]. split; [|done].
    simpl. by eapply bind_defaults_binds.
Qed.

Lemma start_cond_setter_returns fuel c σ :
  cond_ok (heap σ) fuel c = true →
  ∃ σ', start_cond_setter parse_condition fuel c σ = Some (Ok tt, σ') ∧
        binds (heap σ) (heap σ') ∧ self σ' = with_start_cond c (self σ).
Proof.
  intros Hok.
  destruct (set_statement_defaults_returns fuel c σ Hok) as (σ1 & H1 & Hb & Hs).
  exists (with_self (with_start_cond c) σ1). split; [|split].
  - unfold start_cond_setter.
    rewrite (bindF_step _ _ σ c σ) by (by destruct c). cbv beta.
    rewrite (bindF_step _ _ σ tt σ) by (by destruct c). cbv beta.
    by rewrite (bindF_step _ _ σ tt σ1 H1).
  - done.
  - simpl. by rewrite Hs.
Qed.

Lemma end_cond_setter_returns fuel c σ :
  cond_ok (heap σ) fuel c = true →
  ∃ σ', end_cond_setter parse_condition fuel c σ = Some (Ok tt, σ') ∧
        binds (heap σ) (heap σ') ∧ self σ' = with_end_cond c (self σ).
Proof.
  intros Hok.
  destruct (set_statement_defaults_returns fuel c σ Hok) as (σ1 & H1 & Hb & Hs).
  exists (with_self (with_end_cond c) σ1). split; [|split].
  - unfold end_cond_setter.
    rewrite (bindF_step _ _ σ c σ) by (by destruct c). cbv beta.
    rewrite (bindF_step _ _ σ tt σ) by (by destruct c). cbv beta.
    by rewrite (bindF_step _ _ σ tt σ1 H1).
  - done.
  - simpl. by rewrite Hs.
Qed.

Lemma fresh_loc_free (h : gmap loc cond_obj) : h !! fresh (dom h) = None.
Proof. apply not_elem_of_dom, is_fresh. Qed.

(** A copy and a new object leave the objects of the heap as they are;
    what they yield is a bool or a tree as tall as the one passed. *)
Lemma make_cond_returns (arg : option cond_val) (dflt : cond_obj) n σ :
  from_option (cond_ok (heap σ) (S n)) true arg = true →
  dflt = AlwaysTrue ∨ dflt = AlwaysFalse →
  ∃ c σ', made arg dflt σ = (Ok c, σ') ∧
          cond_ok (heap σ') (S n) c = true ∧
          binds (heap σ) (heap σ') ∧ self σ' = self σ.
Proof.
  intros Hok Hd. destruct arg as [[b|l|o]|]; [| |done|].
  - exists (CBool b), σ. split; [done|]. split; [done|]. split; [apply binds_refl|done].
  - destruct (heap σ !! l) as [o|] eqn:Hl; [|by simpl in Hok; rewrite Hl in Hok].
    eexists _, _. unfold copy. rewrite Hl. split; [done|]. split; [|split; [|done]].
    + apply (tall_copy (heap σ) (S n) l o _ Hl (fresh_loc_free _) Hok).
    + apply binds_insert_fresh, fresh_loc_free.
  - eexists _, _. unfold new_cond. split; [done|]. split; [|split; [|done]].
    + cbn [cond_ok heap with_heap tall]. rewrite lookup_insert_eq.
      by destruct Hd as [->| ->].
    + apply binds_insert_fresh, fresh_loc_free.
Qed.

(** *** The name assignment of the constructor *)

Lemma name_commit_heap name old σ r σ' :
  name_commit name old σ = (r, σ') → heap σ' = heap σ.
Proof.
  unfold name_commit, bind, modify, get, raise. simpl.
  destruct old as [old|]; simpl.
  - destruct (tasks σ !! NStr old); intros [= _ <-]; done.
  - intros [= _ <-]. done.
Qed.

Lemma name_setter_heap depth fuel gdn name σ r σ' :
  name_setter depth fuel gdn name σ = Some (r, σ') → heap σ' = heap σ.
Proof.
  revert name σ. induction depth as [|d IH]; intros name σ; simpl; [done|].
  intros H.
  repeat (case_match; try done);
    try (injection H as H; by apply name_commit_heap in H);
    try (by injection H as _ <-);
    try (by apply IH in H).
Qed.

Lemma name_setter_free d fuel gdn s σ :
  tasks σ !! NStr s = None →
  is_Some (name_setter (S d) fuel gdn (Some (NStr s)) σ).
Proof.
  intros Hfree. simpl. destruct (decide _); [by eexists|].
  rewrite Hfree. by eexists.
Qed.

(** With more rounds than the registry has entries, the setter returns
    or raises. *)
Lemma name_setter_returns fuel gdn name σ :
  (size (tasks σ) < fuel)%nat → is_Some (name_setter 2 fuel gdn name σ).
Proof.
  intros Hsize. change 2%nat with (S 1). remember 1%nat as d1 eqn:Hd1. simpl.
  repeat (case_match; try done; try (eexists; reflexivity)).
  all: match goal with
       | H : find_new_name _ _ _ _ = Some _ |- _ =>
           subst d1; apply name_setter_free;
           by destruct (find_new_name_Some _ _ _ _ _ H) as (j & _ & _ & Hfree & _)
       | H : find_new_name _ _ ?s _ = None |- _ =>
           by destruct (find_new_name_total fuel s (tasks σ) Hsize) as [? Hs];
              rewrite Hs in H
       end.
Qed.

Lemma arg_ok_binds h h' n (arg : option cond_val) :
  binds h h' →
  from_option (cond_ok h n) true arg = true →
  from_option (cond_ok h' n) true arg = true.
Proof. destruct arg as [c|]; [|done]. apply cond_ok_binds. Qed.

(** *** The constructor, step by step

    With more fuel than the registry has entries, and each condition
    passed a bool or a tree of height at most the fuel, the constructor
    returns unless the name assignment raises.  The lemma says where
    each of the three conditions is made ([σa] to [σb]), that the task
    ends up holding what was made there, and that before and after only
    task slots are filled and new objects added. *)
Lemma init_conditions fuel gdn a σ :
  (size (tasks σ) < fuel)%nat →
  args_ok (heap σ) fuel a = true →
  (∀ e σ1, name_setter 2 fuel gdn (arg_name a) σ ≠ Some (Raise e, σ1)) →
  ∃ σ',
    __init__ parse_condition fuel gdn a σ = Some (Ok tt, σ') ∧
    force_run (self σ') = arg_force_run a ∧
    disabled (self σ') = arg_disabled a ∧
    (∃ σa σb, binds (heap σ) (heap σa) ∧
       made (arg_start_cond a) AlwaysFalse σa = (Ok (_start_cond (self σ')), σb) ∧
       binds (heap σb) (heap σ')) ∧
    (∃ σa σb, binds (heap σ) (heap σa) ∧
       made (arg_run_cond a) AlwaysTrue σa = (Ok (run_cond (self σ')), σb) ∧
       binds (heap σb) (heap σ')) ∧
    (∃ σa σb, binds (heap σ) (heap σa) ∧
       made (arg_end_cond a) AlwaysFalse σa = (Ok (_end_cond (self σ')), σb) ∧
       binds (heap σb) (heap σ')).
Proof.
  intros Hsize Hargs Hname.
  destruct fuel as [|n]; [lia|].
  unfold args_ok in Hargs. cbn [forallb] in Hargs.
  apply andb_prop in Hargs as [Hs Hargs].
  apply andb_prop in Hargs as [Hr Hargs].
  apply andb_prop in Hargs as [He _].
  (* the name and the status *)
  destruct (name_setter_returns (S n) gdn (arg_name a) σ Hsize) as [[r σ1] H1].
  destruct r as [[]|e]; [|by destruct (Hname e σ1)].
  pose proof (name_setter_heap _ _ _ _ _ _ _ H1) as Hh1.
  pose proof (status_setter_unset 0 (Bare None) σ1 eq_refl) as H2.
  set (σ2 := with_self (with_status None) σ1) in H2.
  assert (binds (heap σ) (heap σ2)) as B2.
  { subst σ2. simpl. rewrite Hh1. apply binds_refl. }
  (* the start condition *)
  destruct (make_cond_returns (arg_start_cond a) AlwaysFalse n σ2)
    as (cs & σ3 & H3 & Hok3 & B3 & S3); [by eapply arg_ok_binds|by right|].
  destruct (start_cond_setter_returns (S n) cs σ3 Hok3) as (σ4 & H4 & B4 & S4).
  assert (binds (heap σ) (heap σ4)) as B04.
  { eapply binds_trans; [exact B2|]. eapply binds_trans; [exact B3|exact B4]. }
  (* the run condition *)
  destruct (make_cond_returns (arg_run_cond a) AlwaysTrue n σ4)
    as (cr & σ5 & H5 & Hok5 & B5 & S5); [by eapply arg_ok_binds|by left|].
  set (σ6 := with_self (with_run_cond cr) σ5).
  assert (binds (heap σ) (heap σ6)) as B06.
  { subst σ6. simpl. eapply binds_trans; [exact B04|exact B5]. }
  (* the end condition *)
  destruct (make_cond_returns (arg_end_cond a) AlwaysFalse n σ6)
    as (ce & σ7 & H7 & Hok7 & B7 & S7); [by eapply arg_ok_binds|by right|].
  destruct (end_cond_setter_returns (S n) ce σ7 Hok7) as (σ8 & H8 & B8 & S8).
  set (σ9 := with_self (with_plain a) σ8).
  assert (binds (heap σ7) (heap σ9)) as B79 by (subst σ9; exact B8).
  assert (binds (heap σ5) (heap σ9)) as B59.
  { eapply binds_trans; [|exact B79]. subst σ6. exact B7. }
  assert (binds (heap σ3) (heap σ9)) as B39.
  { eapply binds_trans; [exact B4|]. eapply binds_trans; [exact B5|exact B59]. }
  assert (_start_cond (self σ9) = cs) as Hcs.
  { subst σ9 σ6. simpl. rewrite S8. simpl. rewrite S7. simpl. by rewrite S5, S4. }
  assert (run_cond (self σ9) = cr) as Hcr.
  { subst σ9 σ6. simpl. rewrite S8. simpl. by rewrite S7. }
  assert (_end_cond (self σ9) = ce) as Hce.
  { subst σ9. simpl. by rewrite S8. }
  (* the defaults, once more *)
  destruct (set_statement_defaults_returns (S n) cs σ9)
    as (σ10 & H10 & B10 & S10); [by eapply cond_ok_binds|].
  destruct (set_statement_defaults_returns (S n) cr σ10)
    as (σ11 & H11 & B11 & S11).
  { eapply cond_ok_binds; [|exact Hok5]. by eapply binds_trans. }
  destruct (set_statement_defaults_returns (S n) ce σ11)
    as (σ' & H12 & B12 & S12).
  { eapply cond_ok_binds; [|exact Hok7].
    eapply binds_trans; [exact B79|]. by eapply binds_trans. }
  assert (binds (heap σ9) (heap σ')) as B9.
  { eapply binds_trans; [exact B10|]. by eapply binds_trans. }
  assert (self σ' = self σ9) as Hself by (by rewrite S12, S11, S10).
  exists σ'. split; [|split; [|split; [|split; [|split]]]].
  - unfold __init__.
    rewrite (bindF_step _ _ σ tt σ1 H1). cbv beta.
    rewrite (bindF_step _ _ σ1 tt σ2) by (unfold liftF; by rewrite H2). cbv beta.
    rewrite (bindF_step _ _ σ2 cs σ3) by (unfold liftF; by rewrite H3). cbv beta.
    rewrite (bindF_step _ _ σ3 tt σ4 H4). cbv beta.
    rewrite (bindF_step _ _ σ4 cr σ5) by (unfold liftF; by rewrite H5). cbv beta.
    rewrite (bindF_step _ _ σ5 tt σ6) by done. cbv beta.
    rewrite (bindF_step _ _ σ6 ce σ7) by (unfold liftF; by rewrite H7). cbv beta.
    rewrite (bindF_step _ _ σ7 tt σ8 H8). cbv beta.
    rewrite (bindF_step _ _ σ8 tt σ9) by done. cbv beta.
    rewrite (bindF_step _ _ σ9 (self σ9) σ9) by done. cbv beta.
    rewrite Hcs, Hcr, Hce.
    rewrite (bindF_step _ _ σ9 tt σ10 H10). cbv beta.
    by rewrite (bindF_step _ _ σ10 tt σ11 H11).
  - rewrite Hself. by subst σ9.
  - rewrite Hself. by subst σ9.
  - exists σ2, σ3. rewrite Hself, Hcs. split; [done|]. split; [done|].
    by eapply binds_trans.
  - exists σ4, σ5. rewrite Hself, Hcr. split; [done|]. split; [done|].
    by eapply binds_trans.
  - exists σ6, σ7. rewrite Hself, Hce. split; [done|]. split; [done|].
    by eapply binds_trans.
Qed.

(** The copy of a tree's root is a new object that holds what the
    caller's root holds, and the caller's root is not below it: writing
    to the caller's root does not change what the copy evaluates to. *)
Lemma copied_root_isolated h l o σa c σb hf :
  heap_closed h → ¬ reach h l l → h !! l = Some o →
  binds h (heap σa) →
  copy (CRef l) σa = (Ok c, σb) →
  binds (heap σb) hf →
  ∃ l' o', c = CRef l' ∧ h !! l' = None ∧ hf !! l' = Some o' ∧
           slot_filled o o' ∧
           ∀ v n, cond_bool ds n (<[l := v]> hf) l' = cond_bool ds n hf l'.
Proof.
  intros Hcl Hacyc Hl Hba Hcopy Hbb.
  destruct (Hba l o Hl) as (oa & Hla & Hsa).
  unfold copy in Hcopy. rewrite Hla in Hcopy. injection Hcopy as <- <-.
  set (l' := fresh (dom (heap σa))) in *.
  assert (heap σa !! l' = None) as Hfresh by apply fresh_loc_free.
  assert (l' ≠ l) as Hne by congruence.
  simpl in Hbb.
  destruct (Hbb l' oa (lookup_insert_eq _ _ _)) as (o' & Hl' & Hsb).
  assert (children oa = children o) as Hca by by apply slot_filled_children.
  assert (children o' = children oa) as Hc' by by apply slot_filled_children.
  assert (grows h hf) as Hg.
  { apply binds_grows. eapply binds_trans; [exact Hba|].
    eapply binds_trans; [|exact Hbb]. by apply binds_insert_fresh. }
  exists l', o'. split; [done|]. split; [by eapply binds_None|].
  split; [done|]. split; [by eapply slot_filled_trans|].
  intros v n. apply cond_bool_insert_unreachable; [done|].
  intros Hr. apply Hacyc.
  inversion Hr as [x o2 c Hx Hc|x o2 c y Hx Hc Hcy]; subst.
  - assert (o2 = o') as -> by congruence.
    eapply reach_child; [exact Hl|]. by rewrite <- Hca, <- Hc'.
  - assert (o2 = o') as -> by congruence.
    rewrite Hc', Hca in Hc.
    eapply reach_step; [exact Hl|exact Hc|].
    eapply reach_inside; [exact Hg|exact Hcl| |exact Hcy].
    by eapply Hcl.
Qed.



End copy_isolation.

Lemma cond_env_heap_lookup x o :
  heap cond_env !! x = Some o →
  (x = 0%nat ∧ o = AlwaysTrue) ∨ (x = 1%nat ∧ o = PyList [0%nat]) ∨
  (x = 2%nat ∧ o = All 1%nat) ∨ (x = 3%nat ∧ o = AlwaysFalse) ∨
  (x = 4%nat ∧ o = Not 2%nat).
Proof.
  unfold cond_env. simpl.
  rewrite !lookup_insert_Some, lookup_empty. intros H.
  repeat (destruct H as [[<- <-]|[_ H]];
          [first [by left|by right; left|by right; right; left
                 |by right; right; right; left|by right; right; right; right]|]).
  discriminate.
Qed.

(** The edges of the sample heap lead to objects of the heap, with
    smaller locations. *)
Lemma cond_env_heap_edge x o c :
  heap cond_env !! x = Some o → c ∈ children o →
  (c < x)%nat ∧ is_Some (heap cond_env !! c).
Proof.
  intros Hx Hc.
  destruct (cond_env_heap_lookup x o Hx)
    as [[-> ->]|[[-> ->]|[[-> ->]|[[-> ->]|[-> ->]]]]]; simpl in Hc.
  - by apply elem_of_nil in Hc.
  - apply list_elem_of_singleton in Hc as ->. split; [lia|by eexists].
  - apply list_elem_of_singleton in Hc as ->. split; [lia|by eexists].
  - by apply elem_of_nil in Hc.
  - apply list_elem_of_singleton in Hc as ->. split; [lia|by eexists].
Qed.

Lemma cond_env_heap_closed : heap_closed (heap cond_env).
Proof. intros x o c Hx Hc. by destruct (cond_env_heap_edge x o c Hx Hc). Qed.

Lemma cond_env_heap_descends x y :
  reach (heap cond_env) x y → (y < x)%nat.
Proof.
  induction 1 as [x o c Hx Hc|x o c y Hx Hc Hr IH].
  - by destruct (cond_env_heap_edge x o c Hx Hc).
  - destruct (cond_env_heap_edge x o c Hx Hc). lia.
Qed.


(** The objects below the root are shared between the caller's tree and
    the task's copy, the list of sub-conditions of an [All] root among
    them: the constructor is given [All(AlwaysTrue)], the task holds a
    new [All] object and its condition is true; after the caller
    appended a false sub-condition to its own tree, the task's condition
    is false. *)
Lemma init_shares_the_objects_below_the_root :
  ∃ σ' l',
    __init__ no_parser 5 None (init_args 2%nat) init_env = Some (Ok tt, σ') ∧
    _start_cond (self σ') = CRef l' ∧ l' ≠ 2%nat ∧
    heap σ' !! l' = Some (All 1%nat) ∧
    cond_val_bool (λ _ _, false) 5 (heap σ') (_start_cond (self σ')) = Some true ∧
    cond_val_bool (λ _ _, false) 5 (<[1%nat := PyList [0%nat; 3%nat]]> (heap σ'))
      (_start_cond (self σ')) = Some false.
Proof.
  eexists _, _. split; [vm_compute; reflexivity|].
  split; [reflexivity|]. split; [by vm_compute|].
  split; [by vm_compute|]. split; by vm_compute.
Qed.

(** * Further properties *)

(** ** Reading the status back *)

(** X1.  With the status kept in memory, what the setter took is what
    the getter gives, without the message; the task counts as running
    exactly after the action [run]. *)
Theorem status_set_then_get (now : Z) (v : status_value) (a : string)
    (get_latest : result (option LogRecord)) (σ : Env) :
  force_status_from_logs (config σ) = false →
  action_of v = Some a → a ∈ known_actions →
  let σ' := (status_setter now v σ).2 in
  status_getter get_latest σ' = (Ok (Some a), σ') ∧
  is_running get_latest σ' = (Ok (bool_decide (a = "run")), σ').
Proof.
  intros Hmem Ha Hin σ'. subst σ'.
  destruct (status_setter_valid now v a σ Ha Hin) as (lvl & exc & extra & -> & _).
  unfold is_running, bind, status_getter, ret. simpl.
  destruct (decide (a = "run")) as [->|Hne]; simpl; rewrite Hmem; simpl.
  - done.
  - split; [done|]. do 2 f_equal. apply bool_decide_ext. split; congruence.
Qed.

Lemma status_set_then_get_witness :
  let σ := lone_env (bare_task 7 "t" (λ _, Returned PyNone)) "t" in
  let σ' := (status_setter 3 (Pair (Some "fail") "Task 't' failed") σ).2 in
  status_getter (Ok None) σ' = (Ok (Some "fail"), σ') ∧
  is_running (Ok None) σ' = (Ok (bool_decide ("fail" = "run")), σ').
Proof.
  apply (status_set_then_get 3 (Pair (Some "fail") "Task 't' failed") "fail" (Ok None)
           (lone_env (bare_task 7 "t" (λ _, Returned PyNone)) "t")).
  - reflexivity.
  - reflexivity.
  - apply (bool_decide_unpack _). vm_compute. exact I.
Defined.

(** X2.  With the status read from the logs, the cached status plays
    no part: right after [log_running], a logger that cannot be read
    gives the status [None] and the task does not count as running;
    and whatever the cache holds, the status is the action of the
    latest record. *)
Theorem status_from_logs_ignores_the_cache (now : Z) (attr : string)
    (record : LogRecord) (σ : Env) :
  force_status_from_logs (config σ) = true →
  let σ' := (log_running now σ).2 in
  _status (self σ') = Some "run" ∧
  (status_getter (Raise (AttributeError attr)) σ').1 = Ok None ∧
  (is_running (Raise (AttributeError attr)) σ').1 = Ok false ∧
  (status_getter (Ok None) σ').1 = Ok None ∧
  (status_getter (Ok (Some record)) σ').1 = Ok (Some (action record)).
Proof.
  intros Hlog σ'. subst σ'. unfold log_running.
  rewrite status_setter_run by done.
  unfold is_running, bind, status_getter, ret. simpl. rewrite Hlog.
  repeat split.
Qed.

Lemma status_from_logs_ignores_the_cache_witness :
  let σ := {| self := bare_task 7 "t" (λ _, Returned PyNone);
              tasks := {[ NStr "t" := 7%nat ]};
              config := {| task_logger_basename := "powerbase.task";
                           use_instance_naming := false;
                           on_task_pre_exists := "raise";
                           force_status_from_logs := true |};
              heap := ∅; trace := [] |} in
  let σ' := (log_running 1 σ).2 in
  _status (self σ') = Some "run" ∧
  (status_getter (Raise (AttributeError "get_latest")) σ').1 = Ok None ∧
  (is_running (Raise (AttributeError "get_latest")) σ').1 = Ok false ∧
  (status_getter (Ok None) σ').1 = Ok None ∧
  (status_getter (Ok (Some run_record_of_t)) σ').1 = Ok (Some (action run_record_of_t)).
Proof.
  apply (status_from_logs_ignores_the_cache 1 "get_latest" run_record_of_t).
  reflexivity.
Defined.

(** X3.  A terminal transition after [log_running] emits a record
    whose start is the time of the run, whose end is the time of the
    transition and whose runtime is their difference; the start time
    of the task stays that of the run.  Without an earlier run (no
    [start_time] attribute) the record has no start and no runtime, and
    nothing is raised. *)
Theorem terminal_record_times (t1 t2 : Z) (v : status_value) (a : string) (σ : Env) :
  action_of v = Some a → a ∈ known_actions → a ≠ "run" →
  (let σ2 := (status_setter t2 v (log_running t1 σ).2).2 in
   ∃ lvl exc extra,
     trace σ2 = trace σ ++ [Log (obj_id (self σ)) INFO false "" (run_extra t1);
                            Log (obj_id (self σ)) lvl exc (message_of v) extra] ∧
     extra !! "start" = Some (PyInt t1) ∧
     extra !! "end" = Some (PyInt t2) ∧
     extra !! "runtime" = Some (PyInt (t2 - t1)) ∧
     start_time (self σ2) = Some t1) ∧
  (start_time (self σ) = None →
   ∃ lvl exc extra,
     status_setter t2 v σ
       = (Ok tt, with_self (with_status (Some a))
                   (emit (Log (obj_id (self σ)) lvl exc (message_of v) extra) σ)) ∧
     extra !! "start" = Some PyNone ∧
     extra !! "end" = Some (PyInt t2) ∧
     extra !! "runtime" = Some PyNone).
Proof.
  intros Ha Hin Hne. apply elem_of_actions in Hin. split.
  - cbv zeta. unfold log_running.
    rewrite (status_setter_run t1 (Bare (Some "run")) σ eq_refl).
    rewrite (status_setter_end t2 v a _ Ha Hne Hin). simpl.
    unfold end_record.
    destruct (decide (a = "fail")); eexists _, _, _; rewrite <- app_assoc;
      (split; [reflexivity|]); unfold end_extra; simpl;
      repeat split; by simplify_map_eq.
  - intros Hst. rewrite (status_setter_end t2 v a σ Ha Hne Hin).
    unfold end_record. rewrite Hst.
    destruct (decide (a = "fail")); eexists _, _, _;
      (split; [reflexivity|]); unfold end_extra; simpl;
      repeat split; by simplify_map_eq.
Qed.

Lemma terminal_record_times_witness :
  let σ := lone_env (bare_task 7 "t" (λ _, Returned PyNone)) "t" in
  let σ2 := (status_setter 5 (Bare (Some "success")) (log_running 2 σ).2).2 in
  ∃ lvl exc extra,
    trace σ2 = trace σ ++ [Log (obj_id (self σ)) INFO false "" (run_extra 2);
                           Log (obj_id (self σ)) lvl exc "" extra] ∧
    extra !! "start" = Some (PyInt 2) ∧
    extra !! "end" = Some (PyInt 5) ∧
    extra !! "runtime" = Some (PyInt (5 - 2)) ∧
    start_time (self σ2) = Some 2.
Proof.
  refine (proj1 (terminal_record_times 2 5 (Bare (Some "success")) "success"
                   (lone_env (bare_task 7 "t" (λ _, Returned PyNone)) "t") _ _ _)).
  - reflexivity.
  - apply (bool_decide_unpack _). vm_compute. exact I.
  - discriminate.
Defined.

(** ** The paths of the inline back-end *)

(** An ordinary exception in a task without a name: [log_failure]
    raises on reading the name, before anything is logged. *)
Lemma run_as_main_failed_unnamed t_run t_end params lr σ e :
  execute_action (self σ) (prepared params (self σ)) = Raised e →
  is_Exception e = true → is_sentinel e = false →
  _name (self σ) = None →
  run_as_main t_run t_end params lr σ
    = finish None (Raise (AttributeError "_name")) (started lr t_run σ).
Proof.
  intros Hb He Hs Hn.
  unfold run_as_main, started, prepared, finish, ran in *.
  destruct lr; run_main; rewrite Hb; run_main.
  all: destruct e; try discriminate; run_main.
  all: unfold log_failure; run_main; rewrite Hn; run_main.
  all: destruct (on_finish (self σ)) as [cb|]; run_main;
    [destruct (cb None)|]; reflexivity.
Qed.

Ltac solve_before_finish :=
  unfold before_finish, same_setup, started, ended, ran, end_record;
  repeat match goal with |- context [if ?b then _ else _] => destruct b end;
  simpl; repeat split;
  first [ by exists []; rewrite app_nil_r
        | eexists; split; [by rewrite <- ?app_assoc|done] ].

(** Every run ends in the [finally] suite, entered in a state that
    differs from the initial one in runtime state and records only. *)
Lemma run_as_main_shape t_run t_end params lr σ :
  ∃ st r σ1,
    run_as_main t_run t_end params lr σ = finish st r σ1 ∧
    before_finish σ σ1 ∧
    (is_Some (_name (self σ)) →
     st = terminal_status (execute_action (self σ) (prepared params (self σ)))).
Proof.
  destruct (execute_action (self σ) (prepared params (self σ))) as [v|e] eqn:Hb.
  - rewrite (run_as_main_returned _ _ _ _ _ _ Hb). unfold called.
    destruct (on_success (self σ)) as [cs|]; [destruct (cs v)|].
    all: eexists _, _, _; split; [reflexivity|]; split; [|done].
    all: solve_before_finish.
  - destruct (is_Exception e) eqn:He; [destruct (is_sentinel e) eqn:Hs|].
    + destruct e; try discriminate.
      * rewrite (run_as_main_restart _ _ _ _ _ Hb).
        eexists _, _, _; split; [reflexivity|]; split; [|done].
        solve_before_finish.
      * rewrite (run_as_main_inaction _ _ _ _ _ Hb).
        eexists _, _, _; split; [reflexivity|]; split; [|done].
        solve_before_finish.
      * rewrite (run_as_main_termination _ _ _ _ _ Hb).
        eexists _, _, _; split; [reflexivity|]; split; [|done].
        solve_before_finish.
    + destruct (_name (self σ)) as [n|] eqn:Hn.
      * rewrite (run_as_main_failed _ _ _ _ _ _ _ Hb He Hs Hn). cbv zeta.
        rewrite (terminal_status_failed e He Hs).
        destruct (on_failure (self σ)) as [cf|]; [destruct (cf e)|].
        all: eexists _, _, _; split; [reflexivity|]; split; [|done].
        all: solve_before_finish.
      * rewrite (run_as_main_failed_unnamed _ _ _ _ _ _ Hb He Hs Hn).
        eexists _, _, _; split; [reflexivity|]; split; [|by intros [? ?]].
        solve_before_finish.
    + rewrite (run_as_main_base _ _ _ _ _ _ Hb He).
      rewrite (terminal_status_base e He).
      eexists _, _, _; split; [reflexivity|]; split; [|done].
      solve_before_finish.
Qed.

Lemma finish_frame st r σ1 :
  tasks (finish st r σ1).2 = tasks σ1 ∧ config (finish st r σ1).2 = config σ1 ∧
  heap (finish st r σ1).2 = heap σ1 ∧ same_setup (self σ1) (self (finish st r σ1).2).
Proof.
  unfold finish, same_setup.
  destruct (on_finish (self σ1)) as [cb|] eqn:Hcb; [destruct (cb st)|]; simpl;
    rewrite ?Hcb; repeat split; done.
Qed.

Lemma same_setup_trans t1 t2 t3 :
  same_setup t1 t2 → same_setup t2 t3 → same_setup t1 t3.
Proof. unfold same_setup. intros H1 H2. intuition congruence. Qed.

Lemma run_as_main_frame t_run t_end params lr σ :
  tasks (run_as_main t_run t_end params lr σ).2 = tasks σ ∧
  config (run_as_main t_run t_end params lr σ).2 = config σ ∧
  heap (run_as_main t_run t_end params lr σ).2 = heap σ ∧
  same_setup (self σ) (self (run_as_main t_run t_end params lr σ).2).
Proof.
  destruct (run_as_main_shape t_run t_end params lr σ)
    as (st & r & σ1 & -> & (Ht & Hc & Hh & Hs & _) & _).
  destruct (finish_frame st r σ1) as (Ht' & Hc' & Hh' & Hs').
  split; [congruence|]. split; [congruence|]. split; [congruence|].
  by eapply same_setup_trans.
Qed.

(** X4.  The statements of [run_as_main] and of the methods it calls
    (the status setter, the [log_*] and [process_*] methods) write the
    runtime state of the task and emit events, and nothing else: on each
    of its paths the registry, the configuration, the conditions, and
    the name, the callbacks, the parameters, the handles and the body of
    the task are what they were.  The body and the callbacks are
    functions of their arguments here; what user code itself writes to
    the session is outside this statement. *)
Theorem run_as_main_keeps_the_setup
    (t_run t_end : Z) (params : option (gmap string pyobj)) (lr : bool) (σ : Env) :
  tasks (run_as_main t_run t_end params lr σ).2 = tasks σ ∧
  config (run_as_main t_run t_end params lr σ).2 = config σ ∧
  heap (run_as_main t_run t_end params lr σ).2 = heap σ ∧
  same_setup (self σ) (self (run_as_main t_run t_end params lr σ).2).
Proof. apply run_as_main_frame. Qed.

(** X5.  When [on_finish] raises, its exception is what the caller
    gets, whatever the body did, and [force_run] is not cleared. *)
Theorem run_as_main_on_finish_raises
    (t_run t_end : Z) (params : option (gmap string pyobj)) (lr : bool) (σ : Env)
    (cb : callback (option string)) (e' : exn) :
  is_Some (_name (self σ)) →
  on_finish (self σ) = Some cb →
  cb (terminal_status (execute_action (self σ) (prepared params (self σ)))) = Some e' →
  (run_as_main t_run t_end params lr σ).1 = Raise e' ∧
  force_run (self (run_as_main t_run t_end params lr σ).2) = force_run (self σ).
Proof.
  intros Hn Hcb He'.
  destruct (run_as_main_shape t_run t_end params lr σ)
    as (st & r & σ1 & -> & (_ & _ & _ & Hs & Hf & _) & Hst).
  rewrite (Hst Hn). unfold finish.
  assert (on_finish (self σ1) = Some cb) as ->.
  { unfold same_setup in Hs. intuition congruence. }
  rewrite He'. simpl. done.
Qed.

Lemma run_as_main_on_finish_raises_witness :
  (run_as_main 1 5 None true (lone_env failing_finish_task "t")).1
    = Raise (UserException "finish") ∧
  force_run (self (run_as_main 1 5 None true (lone_env failing_finish_task "t")).2)
    = Some true.
Proof.
  apply (run_as_main_on_finish_raises 1 5 None true (lone_env failing_finish_task "t")
           (λ _, Some (UserException "finish")) (UserException "finish")).
  - simpl. by eexists.
  - reflexivity.
  - reflexivity.
Defined.

Ltac use_finish :=
  match goal with |- context [finish ?st ?r ?s] =>
    let Hr := fresh "Hr" in let Hf := fresh "Hf" in
    let Hst := fresh "Hst" in let Hex := fresh "Hex" in
    destruct (finish_returns st r s) as [Hr Hf];
      [by repeat match goal with
                 | |- context [started ?b _ _] => is_var b; destruct b
                 end|];
    destruct (finish_keeps st r s) as [Hst Hex];
    rewrite ?Hr, ?Hf, ?Hst, ?Hex, ?finish_trace
  end.

(** X6.  When the body returns and the callbacks return, the caller
    gets the output, one success record is emitted, [on_success] is
    called with the output and then [on_finish] with "succeeded", and
    [force_run] is cleared; with [_log_running] off no run record
    is emitted. *)
Theorem run_as_main_success
    (t_run t_end : Z) (params : option (gmap string pyobj)) (lr : bool) (σ : Env)
    (v : pyobj) :
  execute_action (self σ) (prepared params (self σ)) = Returned v →
  (∀ cb, on_success (self σ) = Some cb → cb v = None) →
  (∀ cb, on_finish (self σ) = Some cb → cb (Some "succeeded") = None) →
  let out := run_as_main t_run t_end params lr σ in
  out.1 = Ok v ∧
  _status (self out.2) = Some "success" ∧
  force_run (self out.2) = None ∧
  exception (self out.2) = exception (self σ) ∧
  trace out.2
    = trace σ
      ++ (if lr then [Log (obj_id (self σ)) INFO false "" (run_extra t_run)] else [])
      ++ [Log (obj_id (self σ)) INFO false ""
            (end_extra "success" (if lr then Some t_run else start_time (self σ)) t_end)]
      ++ match on_success (self σ) with
         | Some _ => [OnSuccess v]
         | None => []
         end
      ++ match on_finish (self σ) with
         | Some _ => [OnFinish (Some "succeeded")]
         | None => []
         end.
Proof.
  intros Hb Hsucc Hfin out. subst out.
  rewrite (run_as_main_returned _ _ _ _ _ _ Hb). unfold called.
  destruct (on_success (self σ)) as [cs|] eqn:Hcs; [rewrite (Hsucc cs eq_refl)|].
  all: use_finish.
  all: destruct lr; simpl; rewrite <- ?app_assoc; repeat split.
Qed.

Lemma run_as_main_success_witness :
  let σ := lone_env (watched_task 7 "t" (λ _, Returned (PyInt 3))) "t" in
  let out := run_as_main 1 5 None false σ in
  out.1 = Ok (PyInt 3) ∧
  _status (self out.2) = Some "success" ∧
  force_run (self out.2) = None ∧
  exception (self out.2) = exception (self σ) ∧
  trace out.2
    = trace σ ++ [] ++ [Log 7 INFO false "" (end_extra "success" None 5)]
      ++ [OnSuccess (PyInt 3)] ++ [OnFinish (Some "succeeded")].
Proof.
  apply (run_as_main_success 1 5 None false
           (lone_env (watched_task 7 "t" (λ _, Returned (PyInt 3))) "t") (PyInt 3)).
  - reflexivity.
  - simpl. intros cb [= <-]. reflexivity.
  - simpl. intros cb [= <-]. reflexivity.
Defined.

(** X7.  The inaction sentinel is not propagated: the caller gets
    [None], an inaction record is emitted, neither [on_success] nor
    [on_failure] is called, no exception is attached, and [on_finish]
    gets "inaction". *)
Theorem run_as_main_inaction_is_not_raised
    (t_run t_end : Z) (params : option (gmap string pyobj)) (lr : bool) (σ : Env) :
  execute_action (self σ) (prepared params (self σ)) = Raised TaskInactionException →
  (∀ cb, on_finish (self σ) = Some cb → cb (Some "inaction") = None) →
  let out := run_as_main t_run t_end params lr σ in
  out.1 = Ok PyNone ∧
  _status (self out.2) = Some "inaction" ∧
  force_run (self out.2) = None ∧
  exception (self out.2) = exception (self σ) ∧
  trace out.2
    = trace σ
      ++ (if lr then [Log (obj_id (self σ)) INFO false "" (run_extra t_run)] else [])
      ++ [Log (obj_id (self σ)) INFO false ""
            (end_extra "inaction" (if lr then Some t_run else start_time (self σ)) t_end)]
      ++ match on_finish (self σ) with
         | Some _ => [OnFinish (Some "inaction")]
         | None => []
         end.
Proof.
  intros Hb Hfin out. subst out.
  rewrite (run_as_main_inaction _ _ _ _ _ Hb).
  use_finish.
  destruct lr; simpl; rewrite <- ?app_assoc; repeat split.
Qed.

Lemma run_as_main_inaction_is_not_raised_witness :
  let σ := lone_env (watched_task 7 "t" (λ _, Raised TaskInactionException)) "t" in
  let out := run_as_main 1 5 None true σ in
  out.1 = Ok PyNone ∧
  _status (self out.2) = Some "inaction" ∧
  force_run (self out.2) = None ∧
  exception (self out.2) = exception (self σ) ∧
  trace out.2
    = trace σ ++ [Log 7 INFO false "" (run_extra 1)]
      ++ [Log 7 INFO false "" (end_extra "inaction" (Some 1) 5)]
      ++ [OnFinish (Some "inaction")].
Proof.
  apply (run_as_main_inaction_is_not_raised 1 5 None true
           (lone_env (watched_task 7 "t" (λ _, Raised TaskInactionException)) "t")).
  - reflexivity.
  - simpl. intros cb [= <-]. reflexivity.
Defined.



(** X9.  An exception outside [Exception] (a [SystemExit]) meets no
    handler: no terminal record is emitted, so that after a logged run
    the cached status stays "run"; [on_finish] is called with [None],
    [force_run] is cleared, and the exception goes to the caller. *)
Theorem run_as_main_base_exception_leaves_the_task_running
    (t_run t_end : Z) (params : option (gmap string pyobj)) (σ : Env) (e : exn) :
  execute_action (self σ) (prepared params (self σ)) = Raised e →
  is_Exception e = false →
  (∀ cb, on_finish (self σ) = Some cb → cb None = None) →
  let out := run_as_main t_run t_end params true σ in
  out.1 = Raise e ∧
  _status (self out.2) = Some "run" ∧
  force_run (self out.2) = None ∧
  exception (self out.2) = exception (self σ) ∧
  trace out.2
    = trace σ ++ [Log (obj_id (self σ)) INFO false "" (run_extra t_run)]
      ++ match on_finish (self σ) with
         | Some _ => [OnFinish None]
         | None => []
         end.
Proof.
  intros Hb He Hfin out. subst out.
  rewrite (run_as_main_base _ _ _ _ _ _ Hb He).
  use_finish.
  simpl; rewrite <- ?app_assoc; repeat split.
Qed.

Lemma run_as_main_base_exception_leaves_the_task_running_witness :
  let σ := lone_env (watched_task 7 "t" (λ _, Raised (BaseExc "SystemExit"))) "t" in
  let out := run_as_main 1 5 None true σ in
  out.1 = Raise (BaseExc "SystemExit") ∧
  _status (self out.2) = Some "run" ∧
  force_run (self out.2) = None ∧
  exception (self out.2) = exception (self σ) ∧
  trace out.2
    = trace σ ++ [Log 7 INFO false "" (run_extra 1)] ++ [OnFinish None].
Proof.
  apply (run_as_main_base_exception_leaves_the_task_running 1 5 None
           (lone_env (watched_task 7 "t" (λ _, Raised (BaseExc "SystemExit"))) "t")
           (BaseExc "SystemExit")).
  - reflexivity.
  - reflexivity.
  - simpl. intros cb [= <-]. reflexivity.
Defined.

(** X10.  When the body returns and [on_success] raises, the run is
    already logged as a success: the exception of the callback goes to
    the caller, [on_failure] is not called, no exception is attached to
    the task, and [on_finish] still gets "succeeded". *)
Theorem run_as_main_on_success_raises
    (t_run t_end : Z) (params : option (gmap string pyobj)) (lr : bool) (σ : Env)
    (v : pyobj) (cs : callback pyobj) (e' : exn) :
  execute_action (self σ) (prepared params (self σ)) = Returned v →
  on_success (self σ) = Some cs → cs v = Some e' →
  (∀ cb, on_finish (self σ) = Some cb → cb (Some "succeeded") = None) →
  let out := run_as_main t_run t_end params lr σ in
  out.1 = Raise e' ∧
  _status (self out.2) = Some "success" ∧
  exception (self out.2) = exception (self σ) ∧
  force_run (self out.2) = None ∧
  ∃ evs, trace out.2 = trace σ ++ evs ∧
         List.filter is_success_call evs = [OnSuccess v] ∧
         List.filter (λ ev, match ev with OnFailure _ => true | _ => false end) evs = [] ∧
         List.filter is_finish evs
           = match on_finish (self σ) with
             | Some _ => [OnFinish (Some "succeeded")]
             | None => []
             end.
Proof.
  intros Hb Hcs He' Hfin out. subst out.
  rewrite (run_as_main_returned _ _ _ _ _ _ Hb). unfold called.
  rewrite Hcs, He'.
  use_finish.
  split; [done|]. split; [by destruct lr|]. split; [by destruct lr|].
  split; [done|].
  simpl. rewrite started_trace, <- !app_assoc.
  eexists. split; [reflexivity|].
  rewrite !List.filter_app. simpl.
  destruct lr; simpl; destruct (on_finish (self σ)); repeat split.
Qed.

Lemma run_as_main_on_success_raises_witness :
  let σ := lone_env (failing_callbacks_task (λ _, Returned (PyInt 3))) "t" in
  let out := run_as_main 1 5 None true σ in
  out.1 = Raise (UserException "callback") ∧
  _status (self out.2) = Some "success" ∧
  exception (self out.2) = exception (self σ) ∧
  force_run (self out.2) = None ∧
  ∃ evs, trace out.2 = trace σ ++ evs ∧
         List.filter is_success_call evs = [OnSuccess (PyInt 3)] ∧
         List.filter (λ ev, match ev with OnFailure _ => true | _ => false end) evs = [] ∧
         List.filter is_finish evs = [OnFinish (Some "succeeded")].
Proof.
  apply (run_as_main_on_success_raises 1 5 None true
           (lone_env (failing_callbacks_task (λ _, Returned (PyInt 3))) "t")
           (PyInt 3) (λ _, Some (UserException "callback")) (UserException "callback")).
  - reflexivity.
  - reflexivity.
  - reflexivity.
  - simpl. intros cb [= <-]. reflexivity.
Defined.

(** X11.  When the body fails and [on_failure] raises, the exception of
    the body is not attached to the task: the exception of the callback
    goes to the caller; the run is logged as "fail" and [on_finish]
    still gets "failed". *)
Theorem run_as_main_on_failure_raises
    (t_run t_end : Z) (params : option (gmap string pyobj)) (lr : bool) (σ : Env)
    (e : exn) (n : string) (cf : callback exn) (e' : exn) :
  execute_action (self σ) (prepared params (self σ)) = Raised e →
  is_Exception e = true → is_sentinel e = false →
  _name (self σ) = Some n →
  on_failure (self σ) = Some cf → cf e = Some e' →
  (∀ cb, on_finish (self σ) = Some cb → cb (Some "failed") = None) →
  let out := run_as_main t_run t_end params lr σ in
  out.1 = Raise e' ∧
  _status (self out.2) = Some "fail" ∧
  exception (self out.2) = exception (self σ) ∧
  force_run (self out.2) = None ∧
  ∃ evs, trace out.2 = trace σ ++ evs ∧
         List.filter (λ ev, match ev with OnFailure _ => true | _ => false end) evs
           = [OnFailure e] ∧
         List.filter is_finish evs
           = match on_finish (self σ) with
             | Some _ => [OnFinish (Some "failed")]
             | None => []
             end.
Proof.
  intros Hb He Hs Hn Hcf He' Hfin out. subst out.
  rewrite (run_as_main_failed _ _ _ _ _ _ _ Hb He Hs Hn). cbv zeta.
  rewrite Hcf, He'.
  use_finish.
  split; [done|]. split; [by destruct lr|]. split; [by destruct lr|].
  split; [done|].
  simpl. rewrite started_trace, <- !app_assoc.
  eexists. split; [reflexivity|].
  rewrite !List.filter_app. simpl.
  destruct lr; simpl; destruct (on_finish (self σ)); repeat split.
Qed.

Lemma run_as_main_on_failure_raises_witness :
  let σ := lone_env (failing_callbacks_task (λ _, Raised (UserException "boom"))) "t" in
  let out := run_as_main 1 5 None true σ in
  out.1 = Raise (UserException "callback") ∧
  _status (self out.2) = Some "fail" ∧
  exception (self out.2) = exception (self σ) ∧
  force_run (self out.2) = None ∧
  ∃ evs, trace out.2 = trace σ ++ evs ∧
         List.filter (λ ev, match ev with OnFailure _ => true | _ => false end) evs
           = [OnFailure (UserException "boom")] ∧
         List.filter is_finish evs = [OnFinish (Some "failed")].
Proof.
  apply (run_as_main_on_failure_raises 1 5 None true
           (lone_env (failing_callbacks_task (λ _, Raised (UserException "boom"))) "t")
           (UserException "boom") "t" (λ _, Some (UserException "callback"))
           (UserException "callback")).
  - reflexivity.
  - reflexivity.
  - reflexivity.
  - reflexivity.
  - reflexivity.
  - reflexivity.
  - simpl. intros cb [= <-]. reflexivity.
Defined.

(** ** The arguments of the body *)

(** X12.  The body is called on the task's own parameters and on those
    call parameters that are keyword arguments of the body: a call
    parameter outside the signature is dropped, a parameter of the task
    overrides a call parameter of the same name, and it reaches the body
    whether or not the signature has it. *)
Theorem run_body_arguments (params : gmap string pyobj) (f : Frame) (k : string) :
  run_body params f
    = match execute_action (self (env f)) (prepared (Some params) (self (env f))) with
      | Returned v => set_local_output v f
      | Raised e => (Raise e, f)
      end ∧
  prepared (Some params) (self (env f)) !! k
    = match _parameters (self (env f)) !! k with
      | Some v => Some v
      | None => if decide (k ∈ kw_args (self (env f))) then params !! k else None
      end.
Proof.
  split.
  { unfold run_body, bind, gets, prepared, raise. simpl.
    by destruct (execute_action _ _). }
  unfold prepared, filter_params. simpl.
  destruct (_parameters (self (env f)) !! k) as [v|] eqn:Hk.
  - by apply lookup_union_Some_l.
  - rewrite lookup_union_r by done.
    destruct (decide (k ∈ kw_args (self (env f)))) as [Hin|Hout].
    + destruct (params !! k) as [v|] eqn:Hp.
      * by apply map_lookup_filter_Some.
      * apply map_lookup_filter_None. by left.
    + apply map_lookup_filter_None. right. intros v _. exact Hout.
Qed.

(** ** Dispatch *)

(** X13.  A call of a task of execution "main" forgets the handles of
    earlier workers, runs the task inline and drops the output: the
    call returns nothing, or raises what the run raised; afterwards no
    worker of the task counts as alive. *)
Theorem call_main_runs_inline_and_drops_the_output
    (t_run t_end : Z) (params : option (gmap string pyobj)) (lr : bool)
    (run_as_process run_as_thread : M Env unit) (σ : Env) :
  execution (self σ) = "main" →
  let σ0 := with_self (with_thread None) (with_self (with_process None) σ) in
  let run := run_as_main t_run t_end params lr σ0 in
  let out := __call__ t_run t_end params lr run_as_process run_as_thread σ in
  out.1 = match run.1 with
          | Ok _ => Ok tt
          | Raise e => Raise e
          end ∧
  out.2 = run.2 ∧
  ∀ thread_alive process_alive, is_alive thread_alive process_alive (self out.2) = false.
Proof.
  intros Hex σ0 run out. subst σ0 run out.
  unfold __call__, bind, modify, gets. simpl. rewrite Hex. simpl.
  destruct (run_as_main t_run t_end params lr
              (with_self (with_thread None) (with_self (with_process None) σ)))
    as [[v|e] σ'] eqn:Hrun; simpl.
  all: split; [done|]; split; [done|]; intros ta pa.
  all: pose proof (run_as_main_frame t_run t_end params lr
         (with_self (with_thread None) (with_self (with_process None) σ))) as Hfr;
       rewrite Hrun in Hfr; simpl in Hfr;
       destruct Hfr as (_ & _ & _ & Hs); unfold same_setup in Hs; simpl in Hs.
  all: unfold is_alive, is_alive_as_thread, is_alive_as_process.
  all: assert (_process (self σ') = None) as -> by tauto.
  all: assert (_thread (self σ') = None) as -> by tauto.
  all: done.
Qed.

Lemma call_main_runs_inline_and_drops_the_output_witness :
  let σ := lone_env (with_process (Some 4%nat)
                       (watched_task 7 "t" (λ _, Returned (PyInt 3)))) "t" in
  let σ0 := with_self (with_thread None) (with_self (with_process None) σ) in
  let run := run_as_main 1 5 None true σ0 in
  let out := __call__ 1 5 None true (ret tt) (ret tt) σ in
  out.1 = match run.1 with
          | Ok _ => Ok tt
          | Raise e => Raise e
          end ∧
  out.2 = run.2 ∧
  ∀ thread_alive process_alive, is_alive thread_alive process_alive (self out.2) = false.
Proof.
  apply (call_main_runs_inline_and_drops_the_output 1 5 None true (ret tt) (ret tt)
           (lone_env (with_process (Some 4%nat)
                        (watched_task 7 "t" (λ _, Returned (PyInt 3)))) "t")).
  reflexivity.
Defined.

(** X14.  A call of a task whose execution is none of "main",
    "process" and "thread" raises [ValueError] and emits nothing, but
    the handles of earlier workers are already forgotten. *)
Theorem call_invalid_execution
    (t_run t_end : Z) (params : option (gmap string pyobj)) (lr : bool)
    (run_as_process run_as_thread : M Env unit) (σ : Env) :
  execution (self σ) ∉ ["main"; "process"; "thread"] →
  __call__ t_run t_end params lr run_as_process run_as_thread σ
    = (Raise (ValueError ("Invalid execution: " +:+ execution (self σ))),
       with_self (with_thread None) (with_self (with_process None) σ)).
Proof.
  rewrite !not_elem_of_cons. intros (H1 & H2 & H3 & _).
  unfold __call__, bind, modify, gets. simpl.
  by rewrite !decide_False.
Qed.

Lemma call_invalid_execution_witness :
  let σ := lone_env (with_thread (Some 4%nat)
                       (bare_task 7 "t" (λ _, Returned PyNone))) "t" in
  __call__ 1 5 None true (ret tt) (ret tt) σ
    = (Raise (ValueError ("Invalid execution: " +:+ execution (self σ))),
       with_self (with_thread None) (with_self (with_process None) σ)).
Proof.
  apply (call_invalid_execution 1 5 None true (ret tt) (ret tt)
           (lone_env (with_thread (Some 4%nat)
                        (bare_task 7 "t" (λ _, Returned PyNone))) "t")).
  apply (bool_decide_unpack _). vm_compute. exact I.
Defined.

(** ** The worker of the process back-end *)

Lemma prefix_append (s t : string) : String.prefix s (s +:+ t) = true.
Proof.
  induction s as [|c s IH]; simpl; [by destruct t|].
  destruct (Ascii.ascii_dec c c); [exact IH|done].
Qed.

(** X15.  In the worker process the name of the process logger always
    passes the check of the logger setter, and the task runs as in the
    inline back-end.  No exception under [Exception] leaves the worker;
    the name and the output are put on the return queue exactly when
    the run returned and there is a queue.  A body that raises
    [SchedulerRestart] ends the worker without an exception and without
    a result. *)
Theorem run_as_process_swallows_exceptions
    (t_run t_end : Z) (params : option (gmap string pyobj)) (return_queue : bool)
    (σ : Env) (n : string) :
  _name (self σ) = Some n →
  let run := run_as_main t_run t_end params true σ in
  let out := _run_as_process t_run t_end params return_queue σ in
  out.2 = run.2 ∧
  out.1 = match run.1 with
          | Ok v => Ok (if return_queue then [(n, v)] else [])
          | Raise e => if is_Exception e then Ok [] else Raise e
          end ∧
  (∀ e, out.1 = Raise e → is_Exception e = false) ∧
  (execute_action (self σ) (prepared params (self σ)) = Raised SchedulerRestart →
   (∀ cb, on_finish (self σ) = Some cb → cb (Some "succeeded") = None) →
   out.1 = Ok []).
Proof.
  intros Hn run out. subst run out.
  assert (_run_as_process t_run t_end params return_queue σ
          = match run_as_main t_run t_end params true σ with
            | (Ok v, σ') => (Ok (if return_queue then [(n, v)] else []), σ')
            | (Raise e, σ') => if is_Exception e then (Ok [], σ') else (Raise e, σ')
            end) as Heq.
  { unfold _run_as_process, bind, gets. simpl. rewrite prefix_append. simpl.
    pose proof (run_as_main_frame t_run t_end params true σ) as (_ & _ & _ & Hs).
    destruct (run_as_main t_run t_end params true σ) as [[v|e] σ']; [|done].
    destruct return_queue; [|done].
    unfold name_getter, ret. simpl in Hs. unfold same_setup in Hs.
    assert (_name (self σ') = Some n) as -> by (rewrite <- Hn; tauto).
    done. }
  rewrite Heq. split; [|split; [|split]].
  - destruct (run_as_main t_run t_end params true σ) as [[v|e] σ']; [done|].
    by destruct (is_Exception e).
  - destruct (run_as_main t_run t_end params true σ) as [[v|e] σ']; [done|].
    simpl. destruct (is_Exception e) eqn:He; simpl; by rewrite ?He.
  - intros e. destruct (run_as_main t_run t_end params true σ) as [[v|e0] σ']; [done|].
    destruct (is_Exception e0) eqn:He0; simpl; [done|]. by intros [= <-].
  - intros Hb Hfin. rewrite (run_as_main_restart _ _ _ _ _ Hb).
    match goal with |- context [finish ?st ?r ?s] =>
      destruct (finish st r s) as [r' s'] eqn:Hfi;
      pose proof (finish_returns st r s Hfin) as [Hr _];
      rewrite Hfi in Hr; simpl in Hr; subst r'
    end.
    done.
Qed.

Lemma run_as_process_swallows_exceptions_witness :
  let σ := lone_env (watched_task 7 "t" (λ _, Raised SchedulerRestart)) "t" in
  let run := run_as_main 1 5 None true σ in
  let out := _run_as_process 1 5 None true σ in
  out.2 = run.2 ∧
  out.1 = match run.1 with
          | Ok v => Ok [("t", v)]
          | Raise e => if is_Exception e then Ok [] else Raise e
          end ∧
  (∀ e, out.1 = Raise e → is_Exception e = false) ∧
  (execute_action (self σ) (prepared None (self σ)) = Raised SchedulerRestart →
   (∀ cb, on_finish (self σ) = Some cb → cb (Some "succeeded") = None) →
   out.1 = Ok []).
Proof.
  apply (run_as_process_swallows_exceptions 1 5 None true
           (lone_env (watched_task 7 "t" (λ _, Raised SchedulerRestart)) "t") "t").
  reflexivity.
Defined.

(** ** More on the name setter *)

(** X16.  Under instance naming a task without a name is entered in
    the registry under the integer [id(self)], while its name becomes
    the decimal string of that integer, which is no key of the
    registry.  A later assignment of a free name then enters the new
    name, renames the task, and raises [KeyError] on deleting the old
    name: the task ends up in the registry under both keys. *)
Theorem name_setter_instance_naming_breaks_renaming
    (d d' fuel : nat) (gdn : option string) (name : string) (σ : Env) :
  use_instance_naming (config σ) = true →
  _name (self σ) = None →
  let key := NInt (Z.of_nat (obj_id (self σ))) in
  let shown := pretty (Z.of_nat (obj_id (self σ))) in
  tasks σ !! key = None →
  tasks σ !! NStr shown = None →
  tasks σ !! NStr name = None → name ≠ shown →
  ∃ σ1 σ2,
    name_setter (S d) fuel gdn None σ = Some (Ok tt, σ1) ∧
    _name (self σ1) = Some shown ∧
    tasks σ1 !! key = Some (obj_id (self σ)) ∧
    tasks σ1 !! NStr shown = None ∧
    name_setter (S d') fuel gdn (Some (NStr name)) σ1 = Some (Raise (KeyError shown), σ2) ∧
    _name (self σ2) = Some name ∧
    tasks σ2 !! NStr name = Some (obj_id (self σ)) ∧
    tasks σ2 !! key = Some (obj_id (self σ)).
Proof.
  intros Hinst Hn key shown Hkey Hshown Hname Hne. subst key shown.
  eexists _, _. split.
  { simpl. rewrite Hinst, Hn. simpl. rewrite Hkey. reflexivity. }
  simpl. split; [done|]. split; [by rewrite lookup_insert_eq|].
  split; [by rewrite lookup_insert_ne|].
  split.
  { rewrite decide_False by congruence.
    rewrite lookup_insert_ne by done. rewrite Hname.
    unfold name_commit, bind, modify, get, raise. simpl.
    rewrite lookup_insert_ne by congruence.
    rewrite lookup_insert_ne by done. rewrite Hshown. reflexivity. }
  simpl. split; [done|]. split; [by rewrite lookup_insert_eq|].
  rewrite lookup_insert_ne by done. by rewrite lookup_insert_eq.
Qed.

Lemma name_setter_instance_naming_breaks_renaming_witness :
  ∃ σ1 σ2,
    name_setter 2 3 None None instance_naming_env = Some (Ok tt, σ1) ∧
    _name (self σ1) = Some (pretty (Z.of_nat 9)) ∧
    tasks σ1 !! NInt (Z.of_nat 9) = Some 9%nat ∧
    tasks σ1 !! NStr (pretty (Z.of_nat 9)) = None ∧
    name_setter 2 3 None (Some (NStr "u")) σ1
      = Some (Raise (KeyError (pretty (Z.of_nat 9))), σ2) ∧
    _name (self σ2) = Some "u" ∧
    tasks σ2 !! NStr "u" = Some 9%nat ∧
    tasks σ2 !! NInt (Z.of_nat 9) = Some 9%nat.
Proof.
  apply (name_setter_instance_naming_breaks_renaming 1 1 3 None "u"
           instance_naming_env).
  - reflexivity.
  - reflexivity.
  - vm_compute. reflexivity.
  - vm_compute. reflexivity.
  - vm_compute. reflexivity.
  - vm_compute. discriminate.
Defined.

(** X17.  Renaming a registered task to a free name and back to its old
    name restores the registry and the name, under every policy. *)
Theorem name_setter_there_and_back
    (d d' fuel : nat) (gdn : option string) (old name : string) (σ : Env) :
  _name (self σ) = Some old →
  tasks σ !! NStr old = Some (obj_id (self σ)) →
  tasks σ !! NStr name = None →
  ∃ σ1 σ2,
    name_setter (S d) fuel gdn (Some (NStr name)) σ = Some (Ok tt, σ1) ∧
    name_setter (S d') fuel gdn (Some (NStr old)) σ1 = Some (Ok tt, σ2) ∧
    _name (self σ1) = Some name ∧
    tasks σ1 !! NStr name = Some (obj_id (self σ)) ∧
    tasks σ1 !! NStr old = None ∧
    _name (self σ2) = Some old ∧
    tasks σ2 = tasks σ.
Proof.
  intros Hold Hreg Hfree.
  assert (old ≠ name) as Hne by congruence.
  eexists _, _. split.
  { simpl. rewrite Hold. simpl. rewrite decide_False by congruence.
    rewrite Hfree. rewrite name_commit_old; [reflexivity|].
    simpl. rewrite lookup_insert_ne by congruence. by rewrite Hreg. }
  split.
  { simpl. rewrite decide_False by congruence.
    rewrite lookup_delete_eq. rewrite name_commit_old; [reflexivity|].
    simpl. rewrite lookup_insert_ne by congruence.
    rewrite lookup_delete_ne by congruence. by rewrite lookup_insert_eq. }
  simpl. split; [done|].
  split; [rewrite lookup_delete_ne by congruence; by rewrite lookup_insert_eq|].
  split; [by rewrite lookup_delete_eq|]. split; [done|].
  apply map_eq. intros k.
  destruct (decide (k = NStr name)) as [->|Hk1].
  { by rewrite lookup_delete_eq. }
  rewrite lookup_delete_ne by done.
  destruct (decide (k = NStr old)) as [->|Hk2].
  { by rewrite lookup_insert_eq. }
  rewrite lookup_insert_ne by done.
  rewrite lookup_delete_ne by done.
  by rewrite lookup_insert_ne.
Qed.

Lemma name_setter_there_and_back_witness :
  ∃ σ1 σ2,
    let σ := lone_env (bare_task 7 "t" (λ _, Returned PyNone)) "t" in
    name_setter 2 3 None (Some (NStr "u")) σ = Some (Ok tt, σ1) ∧
    name_setter 2 3 None (Some (NStr "t")) σ1 = Some (Ok tt, σ2) ∧
    _name (self σ1) = Some "u" ∧
    tasks σ1 !! NStr "u" = Some (obj_id (self σ)) ∧
    tasks σ1 !! NStr "t" = None ∧
    _name (self σ2) = Some "t" ∧
    tasks σ2 = tasks σ.
Proof.
  apply (name_setter_there_and_back 1 1 3 None "t" "u"
           (lone_env (bare_task 7 "t" (λ _, Returned PyNone)) "t")).
  - reflexivity.
  - vm_compute. reflexivity.
  - vm_compute. reflexivity.
Defined.

(** ** More on the proof of start *)

Lemma task_after_app reg ps qs i t :
  task_after reg (ps ++ qs) i t = task_after reg qs i (task_after reg ps i t).
Proof. unfold task_after. by rewrite fold_left_app. Qed.

Lemma task_after_start_time reg ps i t :
  start_time (task_after reg ps i t) = start_time t.
Proof.
  revert t. induction ps as [|p ps IH]; intros t; [done|]. simpl.
  destruct p as [r|ta pa]; [|apply IH].
  destruct (decide (reg !! NStr (task_name r) = Some i)); [|apply IH].
  by rewrite IH.
Qed.

(** No record among [ps] names the task object [i]. *)
Lemma task_after_unnamed reg ps i t :
  Forall (λ p, match p with
               | Popped r => reg !! NStr (task_name r) ≠ Some i
               | QEmpty _ _ => True
               end) ps →
  task_after reg ps i t = t.
Proof.
  induction 1 as [|p ps Hp _ IH]; [done|]. simpl.
  destruct p as [r|ta pa]; [|exact IH].
  by rewrite decide_False.
Qed.

(** X18.  When the loop ends on a [run] record that names the task
    itself, the task's cached status is "run": the dispatcher returns
    with the task counted as running.  The replay does not set the
    task's start time. *)
Theorem lock_to_run_log_leaves_the_task_running
    (this : nat) (pre rest : list pop) (w : World) (r : LogRecord) :
  store_ok w →
  Forall (quiet (w_tasks w) (objs w this)) pre →
  action r = "run" →
  w_tasks w !! NStr (task_name r) = Some this →
  ∃ w', _lock_to_run_log this (pre ++ Popped r :: rest) w = (Ok Finished, w') ∧
        _status (objs w' this) = Some "run" ∧
        start_time (objs w' this) = start_time (objs w this).
Proof.
  intros Hok Hq Hrun Hthis.
  destruct (lock_quiet_rounds this pre (Popped r :: rest) w Hok Hq)
    as (w1 & Hr1 & ->).
  destruct (lock_round_run this r rest w1 this) as (w2 & Hr2 & ->).
  - by eapply replayed_store_ok.
  - destruct Hr1 as (-> & _). done.
  - done.
  - exists w2. split; [done|].
    pose proof (replayed_app this pre [Popped r] w w1 w2 Hr1 Hr2)
      as (_ & _ & _ & _ & Ho).
    rewrite Ho, task_after_app. simpl.
    rewrite decide_True by done. simpl. split; [by rewrite Hrun|].
    apply task_after_start_time.
Qed.

Lemma lock_to_run_log_leaves_the_task_running_witness :
  ∃ w', _lock_to_run_log 7 ([QEmpty false true] ++ Popped run_record_of_t :: [])
          two_task_world = (Ok Finished, w') ∧
        _status (objs w' 7%nat) = Some "run" ∧
        start_time (objs w' 7%nat) = start_time (objs two_task_world 7%nat).
Proof.
  apply (lock_to_run_log_leaves_the_task_running 7 [QEmpty false true] []
           two_task_world run_record_of_t).
  - exact two_task_world_ok.
  - constructor; [reflexivity|constructor].
  - reflexivity.
  - vm_compute. reflexivity.
Defined.

(** X19.  The crash in setup is logged past the status setter: when
    the loop returns after a timeout without a live worker, and no
    replayed record named the task, the task object is what it was; its
    cached status does not become "fail". *)
Theorem lock_to_run_log_crash_keeps_the_cached_status
    (this : nat) (pre rest : list pop) (w : World) (n : string)
    (thread_alive process_alive : bool) :
  store_ok w →
  _name (objs w this) = Some n →
  Forall (quiet (w_tasks w) (objs w this)) pre →
  Forall (λ p, match p with
               | Popped r => w_tasks w !! NStr (task_name r) ≠ Some this
               | QEmpty _ _ => True
               end) pre →
  is_alive thread_alive process_alive (objs w this) = false →
  ∃ w', _lock_to_run_log this (pre ++ QEmpty thread_alive process_alive :: rest) w
          = (Ok Finished, w') ∧
        objs w' this = objs w this ∧
        last (w_trace w')
          = Some (Log this CRITICAL false ("Task '" +:+ n +:+ "' crashed in setup")
                    {[ "action" := PyStr "fail" ]}).
Proof.
  intros Hok Hn Hq Hnot Halive.
  destruct (lock_quiet_rounds this pre (QEmpty thread_alive process_alive :: rest)
              w Hok Hq) as (w1 & Hr1 & ->).
  pose proof Hr1 as (Ht1 & _ & _ & Htr1 & Ho1).
  destruct (lock_round_crash this thread_alive process_alive rest w1 n)
    as (w2 & -> & Htr2 & _ & Ho2).
  - by eapply replayed_store_ok.
  - rewrite Ho1. by rewrite (proj1 (proj2 (task_after_keeps _ _ _ _))).
  - rewrite <- Halive. apply is_alive_same; rewrite Ho1; apply task_after_keeps.
  - exists w2. split; [done|]. split.
    + rewrite Ho2, Ho1. by apply task_after_unnamed.
    + rewrite Htr2.
      change [QueueGet true 10;
              Log this CRITICAL false ("Task '" +:+ n +:+ "' crashed in setup")
                {["action" := PyStr "fail"]}]
        with ([QueueGet true 10]
              ++ [Log this CRITICAL false ("Task '" +:+ n +:+ "' crashed in setup")
                    {["action" := PyStr "fail"]}]).
      rewrite !app_assoc. apply last_snoc.
Qed.

Lemma dead_process_world_ok :
  store_ok {| objs := λ i, with_process None (objs two_task_world i);
              w_tasks := w_tasks two_task_world; w_config := default_config;
              w_heap := ∅; w_trace := [] |}.
Proof.
  intros i. simpl. destruct (decide (i = 7%nat)) as [->|]; reflexivity.
Qed.

Lemma lock_to_run_log_crash_keeps_the_cached_status_witness :
  let w := {| objs := λ i, with_process None (objs two_task_world i);
              w_tasks := w_tasks two_task_world; w_config := default_config;
              w_heap := ∅; w_trace := [] |} in
  ∃ w', _lock_to_run_log 7 ([] ++ QEmpty false false :: []) w = (Ok Finished, w') ∧
        objs w' 7%nat = objs w 7%nat ∧
        last (w_trace w')
          = Some (Log 7 CRITICAL false ("Task '" +:+ "t" +:+ "' crashed in setup")
                    {[ "action" := PyStr "fail" ]}).
Proof.
  apply (lock_to_run_log_crash_keeps_the_cached_status 7 [] []
           {| objs := λ i, with_process None (objs two_task_world i);
              w_tasks := w_tasks two_task_world; w_config := default_config;
              w_heap := ∅; w_trace := [] |} "t" false false).
  - exact dead_process_world_ok.
  - reflexivity.
  - constructor.
  - constructor.
  - reflexivity.
Defined.

(** ** The conditions a task is constructed with *)

(** A condition object the constructor made by default is in the final
    heap as it was made. *)
Lemma new_cond_kept (o : cond_obj) σa c σb h :
  new_cond o σa = (Ok c, σb) → binds (heap σb) h →
  (∀ d, o ≠ DependSuccess d None) →
  ∃ l, c = CRef l ∧ h !! l = Some o.
Proof.
  unfold new_cond. intros [= <- <-] Hb Ho. eexists. split; [done|].
  destruct (Hb _ o (lookup_insert_eq _ _ _)) as (o' & Hl & Hs).
  by rewrite (slot_filled_bound _ _ Hs Ho) in Hl.
Qed.





(** ** What the snapshot leaves out *)

(** X23.  The snapshot carries nothing of the excluded fields: two
    instance dictionaries that agree on every other field have the same
    snapshot, whether or not those fields are set in them. *)
Theorem getstate_depends_only_on_the_kept_fields (d1 d2 : gmap string pyobj) :
  (∀ k, k ∉ excluded_fields → d1 !! k = d2 !! k) →
  __getstate__ d1 = __getstate__ d2.
Proof.
  intros H. apply map_eq. intros k. unfold __getstate__.
  destruct (decide (k ∈ excluded_fields)) as [Hin|Hout].
  - unfold excluded_fields in Hin. rewrite !elem_of_cons, elem_of_nil in Hin.
    repeat (destruct Hin as [->|Hin]; [by simplify_map_eq|]). done.
  - pose proof (H k Hout) as Hk. unfold excluded_fields in Hout.
    rewrite !not_elem_of_cons in Hout.
    repeat (destruct Hout as [? Hout]). by simplify_map_eq.
Qed.

Lemma getstate_depends_only_on_the_kept_fields_witness :
  __getstate__ (<["_logger" := PyObj 4]> {[ "_name" := PyStr "t" ]})
  = __getstate__ {[ "_name" := PyStr "t" ]}.
Proof.
  apply (getstate_depends_only_on_the_kept_fields
           (<["_logger" := PyObj 4]> {[ "_name" := PyStr "t" ]})
           {[ "_name" := PyStr "t" ]}).
  intros k Hk. apply lookup_insert_ne. intros <-. apply Hk.
  apply (bool_decide_unpack _). vm_compute. exact I.
Defined.
